(** * sdk/func_call.py: tool registry and correlated task stores

    A shallow embedding of [src/sdk/func_call.py].  Python dictionaries whose
    iteration order is observed ([ToolManager]) are association lists in
    insertion order; dictionaries only accessed by key ([AuthReloader.auth],
    [ChainReloader.chain]) are [gmap]s.  Operations that can raise are run in
    a state-and-exception monad over the class-level attributes. *)

From Stdlib Require Import ZArith String.
From stdpp Require Import gmap strings list sorting.

Local Open Scope Z_scope.

(** ** Chain *)

(** [class Chain(BaseModel)]: the payload type [Any] is left open. *)
Record Chain {Any : Type} := mkChain {
  user_id : string;
  address : string;
  time : Z;
  arg : Any;
  uuid : string
}.
Arguments Chain : clear implicits.
Arguments mkChain {Any} _ _ _ _ _.

(** What the class body leaves behind once it has run: the default values of
    the fields that have one. *)
Record ChainDefaults := mkChainDefaults {
  default_time : Z;
  default_uuid : string
}.

Section ChainClass.
Context {Any Entropy : Type}.

(** [shortuuid.uuid()]: an external generator, reading and advancing some
    source of randomness. *)
Variable shortuuid_uuid : Entropy -> string * Entropy.

(** Executing the class body of [Chain] (once, when the module is imported):
    [time: int = 0] and [uuid: str = shortuuid.uuid()] evaluate their right
    hand sides there and then. *)
Definition Chain_class_body (e : Entropy) : ChainDefaults * Entropy :=
  let '(u, e') := shortuuid_uuid e in
  ({| default_time := 0; default_uuid := u |}, e').

(** [Chain(user_id=.., address=.., time=.., arg=.., uuid=..)]; an omitted
    [time] or [uuid] is [None] and takes the stored default. *)
Definition Chain_new (cls : ChainDefaults) (user_id address : string)
    (time : option Z) (arg : Any) (uuid : option string) : Chain Any :=
  mkChain user_id address
    (default (default_time cls) time) arg
    (default (default_uuid cls) uuid).

End ChainClass.

(** ** Exceptions and the state monad over the class attributes *)

Inductive exn :=
| KeyError (key : string)
| IndexError.

Inductive result (A : Type) :=
| Ok (a : A)
| Raise (e : exn).
Arguments Ok {A} _.
Arguments Raise {A} _.

(** The two class-level dictionaries: [AuthReloader.auth = {}] and
    [ChainReloader.chain = {}] are attributes of the classes, created once by
    the class bodies.  Neither class has an [__init__], and no method assigns
    an attribute on [self], so [self.auth] and [self.chain] always resolve to
    these.  ([threading_lock] serialises the methods; every method below is
    one critical section.) *)
Record World {Any : Type} := mkWorld {
  AuthReloader_auth : gmap string (Chain Any);
  ChainReloader_chain : gmap string (list (Chain Any))
}.
Arguments World : clear implicits.
Arguments mkWorld {Any} _ _.

Definition World_init {Any} : World Any := mkWorld ∅ ∅.

Definition M (Any A : Type) : Type := World Any -> result (A * World Any).

Global Instance M_ret {Any} : MRet (M Any) := fun A a w => Ok (a, w).

Global Instance M_bind {Any} : MBind (M Any) := fun A B k m w =>
  match m w with
  | Ok (a, w') => k a w'
  | Raise e => Raise e
  end.

(** Instances: an object identity and nothing else. *)
Record AuthReloader := mkAuthReloader { AuthReloader_oid : nat }.
Record ChainReloader := mkChainReloader { ChainReloader_oid : nat }.

(** ** Python list primitives *)

Section ListPrimitives.
Context {A : Type}.

(** [list.pop()]: removes and returns the last item; [IndexError] on an
    empty list. *)
Definition list_pop (l : list A) : result (A * list A) :=
  match last l with
  | Some x => Ok (x, removelast l)
  | None => Raise IndexError
  end.

Variable key : A -> Z.

(** [list.sort(key=key, reverse=True)].  Python's sort is stable, also with
    [reverse=True]: items with equal keys keep their relative order.  Any
    stable sort computes the same list; this one inserts from the right. *)
Fixpoint insert_reverse (x : A) (l : list A) : list A :=
  match l with
  | [] => [x]
  | y :: l' =>
      if bool_decide (key y <= key x) then x :: l
      else y :: insert_reverse x l'
  end.

Fixpoint list_sort_reverse (l : list A) : list A :=
  match l with
  | [] => []
  | x :: l' => insert_reverse x (list_sort_reverse l')
  end.

End ListPrimitives.

(** ** AuthReloader and ChainReloader *)

Section Reloaders.
Context {Any : Type}.

Local Abbreviation Chain := (Chain Any).
Local Abbreviation M := (M Any).

(** [self.auth[k] = v] *)
Definition auth_setitem (k : string) (v : Chain) : M unit :=
  fun w => Ok (tt, mkWorld (<[k := v]> (AuthReloader_auth w)) (ChainReloader_chain w)).

(** [self.auth.pop(k, None)] *)
Definition auth_pop (k : string) : M (option Chain) :=
  fun w => Ok (AuthReloader_auth w !! k,
               mkWorld (delete k (AuthReloader_auth w)) (ChainReloader_chain w)).

(** [k in self.chain] *)
Definition chain_contains (k : string) : M bool :=
  fun w => Ok (bool_decide (is_Some (ChainReloader_chain w !! k)), w).

(** [self.chain[k]]: [KeyError] when the key is missing. *)
Definition chain_getitem (k : string) : M (list Chain) :=
  fun w => match ChainReloader_chain w !! k with
           | Some l => Ok (l, w)
           | None => Raise (KeyError k)
           end.

(** [self.chain[k] = l]; also used to write back a list mutated in place
    (the lists are reachable through the dictionary only). *)
Definition chain_setitem (k : string) (l : list Chain) : M unit :=
  fun w => Ok (tt, mkWorld (AuthReloader_auth w) (<[k := l]> (ChainReloader_chain w))).

Definition lift_result {A} (r : result A) : M A :=
  fun w => match r with
           | Ok a => Ok (a, w)
           | Raise e => Raise e
           end.

Definition AuthReloader_add_task (self : AuthReloader) (task : Chain) : M unit :=
  auth_setitem (uuid task) task.

Definition AuthReloader_get_task (self : AuthReloader) (uuid : string) : M (option Chain) :=
  auth_pop uuid.

Definition ChainReloader_add_task (self : ChainReloader) (task : Chain) : M unit :=
  present ← chain_contains (user_id task);
  (if present : bool then mret tt else chain_setitem (user_id task) []);;
  l ← chain_getitem (user_id task);
  chain_setitem (user_id task) (l ++ [task]);;
  l ← chain_getitem (user_id task);
  chain_setitem (user_id task) (list_sort_reverse time l).

Definition ChainReloader_get_task (self : ChainReloader) (user_id : string) : M (option Chain) :=
  present ← chain_contains user_id;
  if present : bool then
    l ← chain_getitem user_id;
    if (0 <? length l)%nat then
      l ← chain_getitem user_id;
      '(_data, l') ← lift_result (list_pop l);
      chain_setitem user_id l';;
      mret (Some _data)
    else mret None
  else mret None.

(** The chains waiting for a user. *)
Definition pending (w : World Any) (user_id : string) : list Chain :=
  default [] (ChainReloader_chain w !! user_id).

(** Call sequences. *)
Fixpoint add_tasks (self : ChainReloader) (tasks : list Chain) : M unit :=
  match tasks with
  | [] => mret tt
  | task :: tasks' => ChainReloader_add_task self task;; add_tasks self tasks'
  end.

Fixpoint get_tasks (self : ChainReloader) (user_id : string) (n : nat) : M (list (option Chain)) :=
  match n with
  | O => mret []
  | S n' =>
      r ← ChainReloader_get_task self user_id;
      rs ← get_tasks self user_id n';
      mret (r :: rs)
  end.

(** One call on one of the two module-level stores. *)
Inductive call :=
| AuthAdd (self : AuthReloader) (task : Chain)
| AuthGet (self : AuthReloader) (uuid : string)
| ChainAdd (self : ChainReloader) (task : Chain)
| ChainGet (self : ChainReloader) (user_id : string).

Definition run_call (c : call) : M (option Chain) :=
  match c with
  | AuthAdd self task => AuthReloader_add_task self task;; mret None
  | AuthGet self uuid => AuthReloader_get_task self uuid
  | ChainAdd self task => ChainReloader_add_task self task;; mret None
  | ChainGet self user_id => ChainReloader_get_task self user_id
  end.

(** The states the stores can be in: those reached from the freshly imported
    module by calls that returned. *)
Inductive reachable : World Any -> Prop :=
| reachable_init : reachable World_init
| reachable_call w c r w' :
    reachable w -> run_call c w = Ok (r, w') -> reachable w'.

End Reloaders.

(** ** Tools *)

(** [str.__contains__]: [sub in s]. *)
Fixpoint str_in (sub s : string) : bool :=
  String.prefix sub s ||
  match s with
  | EmptyString => false
  | String _ s' => str_in sub s'
  end.

(** The interface of [Function] ([.endpoint.openai], not part of this file):
    a value with a [name], compared by [==]. *)
Class FunctionType (Function : Type) := {
  Function_eq_dec :: EqDecision Function;
  name : Function -> string
}.

(** The interface of [re.Pattern]: [Pattern_match p s pos] is
    [p.match(s, pos)], an attempt to match that starts at index [pos] and
    nowhere else; a match is given by the index where it ends.  The code
    calls [p.match(s)], which is [p.match(s, 0)]. *)
Class PatternType (Pattern : Type) := {
  Pattern_match : Pattern -> string -> nat -> option nat
}.

(** The fields of a [BaseTool] instance. *)
Record BaseTool {Function Pattern : Type} := mkBaseTool {
  silent : bool;
  function : Function;
  keywords : list string;
  pattern : option Pattern;
  require_auth : bool
}.
Arguments BaseTool : clear implicits.
Arguments mkBaseTool {Function Pattern} _ _ _ _ _.

(** [Union[bool, str]] *)
Inductive check_result :=
| CheckBool (b : bool)
| CheckReason (reason : string).

(** The subclasses of [BaseTool]: [T] is the type of the handler classes
    ([Type[BaseTool]]), compared by identity; [tool_init tool] is [tool()],
    and the two abstract methods used by this file are dispatched on the
    class. *)
Class ToolType (Function Pattern T : Type) := {
  ToolType_eq_dec :: EqDecision T;
  tool_init : T -> BaseTool Function Pattern;
  pre_check : T -> BaseTool Function Pattern -> check_result;
  func_message : T -> BaseTool Function Pattern -> string -> option Function
}.

Section BaseToolMethods.
Context {Function Pattern : Type} `{!PatternType Pattern}.

(** [for i in self.keywords: if i in message_text: return self.function];
    [true] when the loop returned. *)
Fixpoint keywords_loop (kws : list string) (message_text : string) : bool :=
  match kws with
  | [] => false
  | i :: kws' =>
      if str_in i message_text then true else keywords_loop kws' message_text
  end.

(** The body of [BaseTool.func_message].  A compiled pattern and a match
    object are always truthy, so [if self.pattern] and [if match] test for
    [None]. *)
Definition BaseTool_func_message (self : BaseTool Function Pattern)
    (message_text : string) : option Function :=
  if keywords_loop (keywords self) message_text then Some (function self)
  else
    match pattern self with
    | Some p =>
        match Pattern_match p message_text 0 with
        | Some _ => Some (function self)
        | None => None
        end
    | None => None
    end.

End BaseToolMethods.

(** ** Dictionaries in insertion order *)

Section Dict.
Context {K V : Type} `{!EqDecision K}.

(** [d.get(k)] *)
Fixpoint dict_get (d : list (K * V)) (k : K) : option V :=
  match d with
  | [] => None
  | (k', v) :: d' => if decide (k' = k) then Some v else dict_get d' k
  end.

(** [d[k] = v]: a key already present keeps its place. *)
Fixpoint dict_setitem (k : K) (v : V) (d : list (K * V)) : list (K * V) :=
  match d with
  | [] => [(k, v)]
  | (k', v') :: d' =>
      if decide (k' = k) then (k, v) :: d' else (k', v') :: dict_setitem k v d'
  end.

(** [for k, x in d.items(): if x == v: return k] and then [return None]. *)
Fixpoint dict_find `{!EqDecision V} (d : list (K * V)) (v : V) : option K :=
  match d with
  | [] => None
  | (k, x) :: d' => if decide (x = v) then Some k else dict_find d' v
  end.

End Dict.

(** ** ToolManager and listener *)

Record ToolManager {Function T : Type} := mkToolManager {
  tm_tool : list (string * T);
  tm_function : list (string * Function)
}.
Arguments ToolManager : clear implicits.
Arguments mkToolManager {Function T} _ _.

Section Registry.
Context {Function Pattern T : Type}.
Context `{!FunctionType Function, !ToolType Function Pattern T}.

Local Abbreviation ToolManager := (ToolManager Function T).

(** [ToolManager()] *)
Definition ToolManager_init : ToolManager := mkToolManager [] [].

Definition add_tool (self : ToolManager) (name : string) (function : Function)
    (tool : T) : ToolManager :=
  mkToolManager (dict_setitem name tool (tm_tool self))
                (dict_setitem name function (tm_function self)).

Definition get_tool (self : ToolManager) (name : string) : option T :=
  dict_get (tm_tool self) name.

Definition find_tool (self : ToolManager) (tool : T) : option string :=
  dict_find (tm_tool self) tool.

Definition get_function (self : ToolManager) (name : string) : option Function :=
  dict_get (tm_function self) name.

Definition find_function (self : ToolManager) (func : Function) : option string :=
  dict_find (tm_function self) func.

Definition get_all_tool (self : ToolManager) : list (string * T) :=
  tm_tool self.

Definition get_all_function (self : ToolManager) : list (string * Function) :=
  tm_function self.

(** The loop of [run_all_check] over the remaining items, [_pass] being the
    list built so far.  What [func_message] returns is a [Function] or
    [None]; a [Function] is truthy. *)
Fixpoint run_all_check_loop (self : ToolManager) (message_text : string)
    (ignore : list string) (items : list (string * T))
    (_pass : list (option Function)) : list (option Function) :=
  match items with
  | [] => _pass
  | (name, tool) :: items' =>
      run_all_check_loop self message_text ignore items'
        (if func_message tool (tool_init tool) message_text is Some _ then
           if bool_decide (name ∈ ignore) then _pass
           else _pass ++ [get_function self name]
         else _pass)
  end.

(** What one iteration of that loop appends, if anything. *)
Definition run_all_check_item (self : ToolManager) (message_text : string)
    (ignore : list string) (item : string * T) : option (option Function) :=
  if func_message item.2 (tool_init item.2) message_text is Some _ then
    if bool_decide (item.1 ∈ ignore) then None
    else Some (get_function self item.1)
  else None.

Definition run_all_check (self : ToolManager) (message_text : string)
    (ignore : option (list string)) : list (option Function) :=
  let ignore := default [] ignore in
  run_all_check_loop self message_text ignore (get_all_tool self) [].

(** [listener(function)(func)] acting on the module's [TOOL_MANAGER].  The
    two [isinstance]/[issubclass] guards hold by typing; the log lines and
    the returned [wrapper] do not touch the manager. *)
Definition listener (function : Function) (func : T)
    (TOOL_MANAGER : ToolManager) : ToolManager :=
  let _check := pre_check func (tool_init func) in
  match _check with
  | CheckBool true => add_tool TOOL_MANAGER (name function) function func
  | _ => TOOL_MANAGER
  end.

(** The decorated classes of a program, in the order they are loaded. *)
Definition load (candidates : list (Function * T)) : ToolManager :=
  foldl (fun tm c => listener c.1 c.2 tm) ToolManager_init candidates.

(** The [add_tool] calls made while loading: one for each candidate whose
    [pre_check()] is [True]. *)
Definition accepted (candidates : list (Function * T))
    : list (string * Function * T) :=
  omap (fun c => match pre_check c.2 (tool_init c.2) with
                 | CheckBool true => Some (name c.1, c.1, c.2)
                 | _ => None
                 end) candidates.

(** The methods of [ToolManager], as calls. *)
Inductive tm_call :=
| CallAddTool (name : string) (function : Function) (tool : T)
| CallGetTool (name : string)
| CallFindTool (tool : T)
| CallGetFunction (name : string)
| CallFindFunction (func : Function)
| CallGetAllTool
| CallGetAllFunction
| CallRunAllCheck (message_text : string) (ignore : option (list string)).

(** The manager after a call; only [add_tool] assigns. *)
Definition tm_step (self : ToolManager) (c : tm_call) : ToolManager :=
  match c with
  | CallAddTool name function tool => add_tool self name function tool
  | CallGetTool name => let _ := get_tool self name in self
  | CallFindTool tool => let _ := find_tool self tool in self
  | CallGetFunction name => let _ := get_function self name in self
  | CallFindFunction func => let _ := find_function self func in self
  | CallGetAllTool => let _ := get_all_tool self in self
  | CallGetAllFunction => let _ := get_all_function self in self
  | CallRunAllCheck message_text ignore =>
      let _ := run_all_check self message_text ignore in self
  end.

Definition tm_run (calls : list tm_call) : ToolManager :=
  foldl tm_step ToolManager_init calls.

(** The [add_tool] calls among a sequence of calls. *)
Definition tm_adds (calls : list tm_call) : list (string * Function * T) :=
  omap (fun c => match c with
                 | CallAddTool name function tool => Some (name, function, tool)
                 | _ => None
                 end) calls.

(** *** What [run_all_check] is specified to return

    Stated on the history of [add_tool] calls: the registered names in the
    order in which they were first inserted, each with the descriptor and
    the handler type it was given last. *)

Definition spec_names (adds : list (string * Function * T)) : list string :=
  foldl (fun seen a => if decide (a.1.1 ∈ seen) then seen else seen ++ [a.1.1])
        [] adds.

Definition spec_entry (adds : list (string * Function * T)) (n : string)
    : option (Function * T) :=
  match last (filter (fun a => a.1.1 = n) adds) with
  | Some a => Some (a.1.2, a.2)
  | None => None
  end.

Definition spec_matches (message_text : string) (ignore : list string)
    (adds : list (string * Function * T)) (n : string) : option Function :=
  match spec_entry adds n with
  | Some (f, tool) =>
      if bool_decide (is_Some (func_message tool (tool_init tool) message_text)
                      ∧ n ∉ ignore)
      then Some f else None
  | None => None
  end.

Definition spec_run_all_check (adds : list (string * Function * T))
    (message_text : string) (ignore : list string) : list Function :=
  omap (spec_matches message_text ignore adds) (spec_names adds).

Definition add_tools (adds : list (string * Function * T)) : ToolManager :=
  foldl (fun tm a => add_tool tm a.1.1 a.1.2 a.2) ToolManager_init adds.

End Registry.

(** ** A small program using the module

    The scenario of the documentation: a tool "weather" that passes its
    [pre_check], and a tool "broken" that reports a missing key. *)

Record DemoFunction := mkDemoFunction {
  demo_name : string;
  demo_description : string
}.

Global Instance DemoFunction_eq_dec : EqDecision DemoFunction.
Proof. solve_decision. Defined.

Global Instance DemoFunction_type : FunctionType DemoFunction :=
  {| name := demo_name |}.

(** A pattern that matches one literal text. *)
Inductive DemoPattern := Literal (text : string).

Global Instance DemoPattern_type : PatternType DemoPattern :=
  {| Pattern_match p s pos :=
       let 'Literal text := p in
       if String.prefix text (String.substring pos (String.length s - pos) s)
       then Some (pos + String.length text)%nat else None |}.

Inductive DemoTool := Weather | Forecast | Broken.

Global Instance DemoTool_eq_dec : EqDecision DemoTool.
Proof. solve_decision. Defined.

Definition weather_function : DemoFunction :=
  mkDemoFunction "weather" "look up the weather".
Definition broken_function : DemoFunction :=
  mkDemoFunction "broken" "needs a key".

Definition DemoTool_init (tool : DemoTool) : BaseTool DemoFunction DemoPattern :=
  match tool with
  | Weather => mkBaseTool false weather_function ["weather"%string] None false
  | Forecast =>
      mkBaseTool false weather_function [] (Some (Literal "forecast")) false
  | Broken => mkBaseTool false broken_function ["broken"%string] None true
  end.

Global Instance DemoTool_type : ToolType DemoFunction DemoPattern DemoTool :=
  {| tool_init := DemoTool_init;
     pre_check tool self :=
       match tool with
       | Broken => CheckReason "missing api key"
       | _ => CheckBool true
       end;
     func_message tool self := BaseTool_func_message self |}.

Definition demo_chain (user : string) (t : Z) (id : string) : Chain Z :=
  mkChain user "telegram" t t id.

(** * Properties *)

(** ** The stable descending sort *)

Section SortFacts.
Context {A : Type} (key : A -> Z).

Definition desc (x y : A) : Prop := key y <= key x.

Lemma insert_reverse_Permutation x l : insert_reverse key x l ≡ₚ x :: l.
Proof.
  induction l as [|y l IH]; simpl; [done|].
  case_bool_decide; [done|].
  rewrite IH. apply Permutation_swap.
Qed.

Lemma list_sort_reverse_Permutation l : list_sort_reverse key l ≡ₚ l.
Proof.
  induction l as [|x l IH]; simpl; [done|].
  by rewrite insert_reverse_Permutation, IH.
Qed.

Lemma insert_reverse_sorted x l :
  StronglySorted desc l -> StronglySorted desc (insert_reverse key x l).
Proof.
  induction l as [|y l IH]; intros Hl; simpl.
  - repeat constructor.
  - apply StronglySorted_cons in Hl as [Hy Hl].
    case_bool_decide as Hle.
    + apply StronglySorted_cons. split.
      * constructor; [done|].
        eapply Forall_impl; [exact Hy|]. unfold desc. intros; lia.
      * by apply StronglySorted_cons.
    + apply StronglySorted_cons. split; [|by apply IH].
      rewrite insert_reverse_Permutation.
      constructor; [unfold desc; lia|done].
Qed.

Lemma list_sort_reverse_sorted l : StronglySorted desc (list_sort_reverse key l).
Proof.
  induction l as [|x l IH]; simpl; [constructor|].
  by apply insert_reverse_sorted.
Qed.

(** Stability: the items of any one key keep their order. *)
Lemma insert_reverse_stable t x l :
  filter (fun y => key y = t) (insert_reverse key x l)
  = filter (fun y => key y = t) (x :: l).
Proof.
  induction l as [|y l IH]; simpl; [done|].
  case_bool_decide as Hle; [done|].
  rewrite (filter_cons _ y), IH, !filter_cons.
  repeat case_decide; try done; lia.
Qed.

Lemma list_sort_reverse_stable t l :
  filter (fun y => key y = t) (list_sort_reverse key l)
  = filter (fun y => key y = t) l.
Proof.
  induction l as [|x l IH]; simpl; [done|].
  by rewrite insert_reverse_stable, !filter_cons, IH.
Qed.

Lemma desc_sorted_ascending l :
  StronglySorted desc l -> Sorted Z.le (key <$> reverse l).
Proof.
  intros Hl. apply StronglySorted_Sorted, Sorted_reverse in Hl.
  eapply Sorted_fmap; [|exact Hl]. unfold flip, desc. auto.
Qed.


End SortFacts.

(** ** The two stores *)

Section StoreFacts.
Context {Any : Type}.
Implicit Types (w : World Any) (c task : Chain Any) (u : string).

Lemma add_task_run (self : ChainReloader) task w :
  ChainReloader_add_task self task w
  = Ok (tt, mkWorld (AuthReloader_auth w)
              (<[user_id task :=
                   list_sort_reverse time (pending w (user_id task) ++ [task])]>
                 (ChainReloader_chain w))).
Proof.
  unfold ChainReloader_add_task, pending, mbind, M_bind, mret, M_ret,
    chain_contains, chain_getitem, chain_setitem.
  destruct (ChainReloader_chain w !! user_id task) as [l|] eqn:E; simpl.
  - rewrite E, lookup_insert_eq. simpl. by rewrite insert_insert_eq.
  - rewrite lookup_insert_eq. simpl. rewrite lookup_insert_eq. simpl.
    by rewrite !insert_insert_eq.
Qed.

Lemma get_task_none (self : ChainReloader) u w :
  pending w u = [] -> ChainReloader_get_task self u w = Ok (None, w).
Proof.
  unfold ChainReloader_get_task, pending, mbind, M_bind, mret, M_ret,
    chain_contains, chain_getitem.
  destruct (ChainReloader_chain w !! u) as [l|] eqn:E; simpl; [|done].
  intros ->. by rewrite E.
Qed.

Lemma get_task_some (self : ChainReloader) u w l x :
  pending w u = l ++ [x] ->
  ChainReloader_get_task self u w
  = Ok (Some x, mkWorld (AuthReloader_auth w) (<[u := l]> (ChainReloader_chain w))).
Proof.
  unfold ChainReloader_get_task, pending, mbind, M_bind, mret, M_ret,
    chain_contains, chain_getitem, chain_setitem, lift_result, list_pop.
  destruct (ChainReloader_chain w !! u) as [l'|] eqn:E; simpl.
  - intros ->. rewrite E, length_app. simpl.
    replace (0 <? length l + 1)%nat with true
      by (symmetry; apply Nat.ltb_lt; lia).
    by rewrite E, last_snoc, removelast_last.
  - intros Hnil. by destruct l.
Qed.

Lemma pending_setitem a (m : gmap string (list (Chain Any))) u l u' :
  pending (mkWorld a (<[u := l]> m)) u'
  = if decide (u = u') then l else pending (mkWorld a m) u'.
Proof.
  unfold pending. simpl. case_decide as Hu.
  - subst. by rewrite lookup_insert_eq.
  - by rewrite lookup_insert_ne.
Qed.

Lemma pending_world w u :
  pending (mkWorld (AuthReloader_auth w) (ChainReloader_chain w)) u = pending w u.
Proof. done. Qed.

Lemma sort_snoc_least (l : list (Chain Any)) c :
  Forall (fun x => time c <= time x) l ->
  list_sort_reverse time (l ++ [c]) = list_sort_reverse time l ++ [c].
Proof.
  assert (Hins : forall x l', time c <= time x ->
            insert_reverse time x (l' ++ [c]) = insert_reverse time x l' ++ [c]).
  { intros x l' Hx. induction l' as [|y l' IH]; simpl.
    - by rewrite bool_decide_eq_true_2.
    - case_bool_decide; [done|]. by rewrite IH. }
  induction 1 as [|x l Hx _ IH]; simpl; [done|].
  by rewrite IH, Hins.
Qed.

(** Effect of a sequence of [add_task] calls on the list of any one user. *)
Lemma add_tasks_run (self : ChainReloader) (cs : list (Chain Any)) w :
  exists w',
    add_tasks self cs w = Ok (tt, w') /\
    AuthReloader_auth w' = AuthReloader_auth w /\
    forall u,
      let new := filter (fun c => user_id c = u) cs in
      pending w' u ≡ₚ pending w u ++ new /\
      (StronglySorted (desc time) (pending w u) ->
       StronglySorted (desc time) (pending w' u)) /\
      (new <> [] -> StronglySorted (desc time) (pending w' u)) /\
      forall t, filter (fun c => time c = t) (pending w' u)
                = filter (fun c => time c = t) (pending w u ++ new).
Proof.
  revert w. induction cs as [|c cs IH]; intros w; simpl.
  - exists w. split; [done|]. split; [done|]. intros u.
    rewrite filter_nil, app_nil_r. by repeat split.
  - unfold mbind, M_bind. rewrite add_task_run.
    destruct (IH (mkWorld (AuthReloader_auth w)
       (<[user_id c := list_sort_reverse time (pending w (user_id c) ++ [c])]>
          (ChainReloader_chain w)))) as (w' & Hrun & Hauth & Hall).
    exists w'. split; [done|]. split; [done|]. intros u.
    specialize (Hall u). cbv zeta in Hall.
    rewrite pending_setitem, pending_world in Hall.
    destruct Hall as (Hperm & Hsort & Hnew & Hstable).
    rewrite filter_cons. case_decide as Hu; simpl.
    + subst u.
      pose proof (list_sort_reverse_sorted time (pending w (user_id c) ++ [c])).
      repeat split.
      * rewrite Hperm, list_sort_reverse_Permutation.
        by rewrite <- app_assoc.
      * auto.
      * auto.
      * intros t. rewrite Hstable, !filter_app, list_sort_reverse_stable.
        rewrite filter_app, <- app_assoc. f_equal.
        rewrite !filter_cons, filter_nil. by case_decide.
    + done.
Qed.

(** Effect of [n] successive [get_task] calls: the list is consumed from
    its end. *)
Lemma get_tasks_run (self : ChainReloader) u n w (r : list (Chain Any)) :
  pending w u = reverse r ->
  exists w',
    get_tasks self u n w
    = Ok ((Some <$> take n r) ++ replicate (n - length r) None, w') /\
    pending w' u = reverse (drop n r).
Proof.
  revert w r. induction n as [|n IH]; intros w r Hr; simpl.
  - exists w. by rewrite drop_0.
  - unfold mbind, M_bind. destruct r as [|x r].
    + rewrite get_task_none by done.
      destruct (IH w [] Hr) as (w' & -> & Hw'). simpl.
      exists w'. split; [|by rewrite Hw', drop_nil].
      by rewrite take_nil, Nat.sub_0_r.
    + rewrite reverse_cons in Hr. rewrite (get_task_some _ _ _ _ _ Hr).
      edestruct (IH (mkWorld (AuthReloader_auth w)
                       (<[u := reverse r]> (ChainReloader_chain w))) r)
        as (w' & -> & Hw').
      { by rewrite pending_setitem, decide_True. }
      by exists w'.
Qed.

(** Every list held by [ChainReloader.chain] is sorted by descending
    [time]. *)
Lemma reachable_sorted w u :
  reachable w -> StronglySorted (desc time) (pending w u).
Proof.
  intros Hw. revert u. induction Hw as [|w c r w' _ IH Hrun]; intros u.
  - unfold pending. simpl. rewrite lookup_empty. constructor.
  - destruct c as [self task|self id|self task|self u']; simpl in Hrun;
      unfold mbind, M_bind in Hrun.
    + injection Hrun as _ <-. apply IH.
    + injection Hrun as _ <-. apply IH.
    + rewrite add_task_run in Hrun. injection Hrun as _ <-.
      rewrite pending_setitem. case_decide; [|apply IH].
      apply list_sort_reverse_sorted.
    + destruct (pending w u') as [|x l _] eqn:E using rev_ind.
      * rewrite get_task_none in Hrun by done. injection Hrun as _ <-. apply IH.
      * rewrite (get_task_some _ _ _ _ _ E) in Hrun. injection Hrun as _ <-.
        rewrite pending_setitem. case_decide as Hu; [|apply IH]. subst u'.
        specialize (IH u). rewrite E in IH.
        by apply StronglySorted_app_1_l in IH.
Qed.

End StoreFacts.

(** ** Chain *)

(** C1 (as the code behaves): the default [uuid] is computed once, by the
    class body, and every [Chain] constructed without a [uuid] argument gets
    that same value, whatever the generator and the other arguments are. *)
Theorem Chain_default_uuid_shared {Any Entropy : Type}
    (shortuuid_uuid : Entropy -> string * Entropy) (e : Entropy)
    (user_id1 address1 user_id2 address2 : string) (time1 time2 : option Z)
    (arg1 arg2 : Any) :
  let cls := (Chain_class_body shortuuid_uuid e).1 in
  uuid (Chain_new cls user_id1 address1 time1 arg1 None)
  = uuid (Chain_new cls user_id2 address2 time2 arg2 None).
Proof. reflexivity. Qed.

(** What follows for [AuthReloader], which files chains under their
    [uuid]: of two chains constructed with the default and added one after
    the other, the second replaces the first. *)
Lemma auth_default_uuid_collision {Any Entropy : Type}
    (shortuuid_uuid : Entropy -> string * Entropy) (e : Entropy)
    (self : AuthReloader) (w : World Any)
    (user_id1 address1 user_id2 address2 : string) (arg1 arg2 : Any) :
  let cls := (Chain_class_body shortuuid_uuid e).1 in
  let c1 := Chain_new cls user_id1 address1 None arg1 None in
  let c2 := Chain_new cls user_id2 address2 None arg2 None in
  exists w',
    (AuthReloader_add_task self c1;; AuthReloader_add_task self c2;;
     r1 ← AuthReloader_get_task self (uuid c1);
     r2 ← AuthReloader_get_task self (uuid c2);
     mret (r1, r2)) w = Ok ((Some c2, None), w').
Proof.
  intros cls c1 c2. eexists.
  unfold mbind, M_bind, mret, M_ret, AuthReloader_add_task,
    AuthReloader_get_task, auth_setitem, auth_pop. simpl.
  rewrite lookup_insert_eq, lookup_delete_eq. reflexivity.
Qed.

(** ** ChainReloader *)

(** C2: from any state the stores can be in, whatever chains are added and
    in whatever order, [n] successive [get_task u] calls return and hand
    out the pending chains of [u] (those already waiting and those just
    added) by ascending [time], and [None] once there are no more. *)
Theorem get_task_ascending_time {Any : Type} (self : ChainReloader)
    (w : World Any) (u : string) (cs : list (Chain Any)) (n : nat) :
  reachable w ->
  exists l outs w',
    (add_tasks self cs;; get_tasks self u n) w = Ok (outs, w') /\
    l ≡ₚ pending w u ++ filter (fun c => user_id c = u) cs /\
    Sorted Z.le (time <$> l) /\
    outs = (Some <$> take n l) ++ replicate (n - length l) None.
Proof.
  intros Hw.
  destruct (add_tasks_run self cs w) as (w1 & Hadd & _ & Hall).
  destruct (Hall u) as (Hperm & Hsort & _ & _).
  destruct (get_tasks_run self u n w1 (reverse (pending w1 u)))
    as (w2 & Hget & _); [by rewrite reverse_involutive|].
  eexists (reverse (pending w1 u)), _, w2. repeat split.
  - unfold mbind, M_bind. rewrite Hadd. exact Hget.
  - by rewrite reverse_Permutation.
  - apply desc_sorted_ascending, Hsort, reachable_sorted, Hw.
Qed.

Lemma get_task_ascending_time_witness :
  reachable (World_init (Any := Z)) /\
  exists l outs w',
    (add_tasks (mkChainReloader 0)
       [demo_chain "alice" 5 "a"; demo_chain "alice" 1 "b";
        demo_chain "alice" 3 "c"];;
     get_tasks (mkChainReloader 0) "alice" 3) World_init = Ok (outs, w') /\
    l ≡ₚ pending World_init "alice" ++
         filter (fun c => user_id c = "alice"%string)
           [demo_chain "alice" 5 "a"; demo_chain "alice" 1 "b";
            demo_chain "alice" 3 "c"] /\
    Sorted Z.le (time <$> l) /\
    outs = (Some <$> take 3 l) ++ replicate (3 - length l) None.
Proof.
  split; [apply reachable_init|].
  apply (get_task_ascending_time (mkChainReloader 0) World_init "alice"
           [demo_chain "alice" 5 "a"; demo_chain "alice" 1 "b";
            demo_chain "alice" 3 "c"] 3).
  apply reachable_init.
Defined.

(** The example of the documentation: times 5, 1, 3 come out as 1, 3, 5. *)
Example get_task_5_1_3 :
  exists w',
    (add_tasks (mkChainReloader 0)
       [demo_chain "alice" 5 "a"; demo_chain "alice" 1 "b";
        demo_chain "alice" 3 "c"];;
     get_tasks (mkChainReloader 0) "alice" 3) World_init
    = Ok ([Some (demo_chain "alice" 1 "b"); Some (demo_chain "alice" 3 "c");
           Some (demo_chain "alice" 5 "a")], w').
Proof. eexists. vm_compute. reflexivity. Qed.



(** The chain returned in that run is the second of the two with time 1. *)
Example get_task_ties_example :
  exists w',
    (add_tasks (mkChainReloader 0)
       [demo_chain "alice" 1 "first"; demo_chain "bob" 0 "other";
        demo_chain "alice" 1 "second"; demo_chain "alice" 4 "late"];;
     get_tasks (mkChainReloader 0) "alice" 3) World_init
    = Ok ([Some (demo_chain "alice" 1 "second");
           Some (demo_chain "alice" 1 "first");
           Some (demo_chain "alice" 4 "late")], w').
Proof. eexists. vm_compute. reflexivity. Qed.

(** ** AuthReloader *)

(** C3: after [add_task c], [get_task (uuid c)] returns [c] itself, and a
    second [get_task (uuid c)] right after returns [None]. *)
Theorem auth_get_task_exactly_once {Any : Type} (self : AuthReloader)
    (c : Chain Any) (w : World Any) :
  exists w1 w2 w3,
    AuthReloader_add_task self c w = Ok (tt, w1) /\
    AuthReloader_get_task self (uuid c) w1 = Ok (Some c, w2) /\
    AuthReloader_get_task self (uuid c) w2 = Ok (None, w3).
Proof.
  unfold AuthReloader_add_task, AuthReloader_get_task, auth_setitem, auth_pop.
  do 3 eexists. split; [reflexivity|]. split.
  - simpl. rewrite lookup_insert_eq. reflexivity.
  - simpl. rewrite lookup_delete_eq. reflexivity.
Qed.

(** ** The stores belong to the classes *)

(** C9 as stated does not hold for [ChainReloader]: what another instance
    gets back is the chain of least [time] of the shared list, which need
    not be the one just added. *)
Lemma stores_shared_counterexample :
  ~ (forall (a b : AuthReloader) (a' b' : ChainReloader) (c : Chain Z)
       (w : World Z),
       reachable w -> a <> b -> a' <> b' ->
       (exists w', (AuthReloader_add_task a c;;
                    AuthReloader_get_task b (uuid c)) w = Ok (Some c, w')) /\
       (exists w', (ChainReloader_add_task a' c;;
                    ChainReloader_get_task b' (user_id c)) w = Ok (Some c, w'))).
Proof.
  intros H.
  pose (w := mkWorld (Any := Z) ∅ {[ "alice"%string := [demo_chain "alice" 1 "a"] ]}).
  assert (Hw : reachable w).
  { apply (reachable_call World_init
             (ChainAdd (mkChainReloader 0) (demo_chain "alice" 1 "a")) None).
    - apply reachable_init.
    - simpl. unfold mbind, M_bind. rewrite add_task_run. reflexivity. }
  destruct (H (mkAuthReloader 0) (mkAuthReloader 1)
              (mkChainReloader 0) (mkChainReloader 1)
              (demo_chain "alice" 5 "b") w Hw) as [_ [w' Hget]]; [done..|].
  unfold mbind, M_bind in Hget. rewrite add_task_run in Hget.
  rewrite (get_task_some _ _ _ [demo_chain "alice" 5 "b"]
             (demo_chain "alice" 1 "a")) in Hget; [discriminate|].
  rewrite pending_setitem, decide_True by done. reflexivity.
Qed.

(** C9, amended: the dictionaries are attributes of the classes, so what one
    instance adds another instance gets.  For [AuthReloader] this is the
    chain added, in every state.  For [ChainReloader] a chain is always
    returned; it is the chain added whenever no chain waiting for that user
    has a smaller [time], and otherwise it is a waiting chain, earlier than
    the one added, whose [time] is the least of those waiting. *)
Theorem stores_shared_across_instances {Any : Type} (a b : AuthReloader)
    (a' b' : ChainReloader) (c : Chain Any) (w : World Any) :
  a <> b -> a' <> b' ->
  (exists w', (AuthReloader_add_task a c;;
               AuthReloader_get_task b (uuid c)) w = Ok (Some c, w')) /\
  (exists x w',
     (ChainReloader_add_task a' c;;
      ChainReloader_get_task b' (user_id c)) w = Ok (Some x, w') /\
     (Forall (fun y => time c <= time y) (pending w (user_id c)) -> x = c) /\
     (~ Forall (fun y => time c <= time y) (pending w (user_id c)) ->
      x ∈ pending w (user_id c) /\ time x < time c /\
      Forall (fun y => time x <= time y) (pending w (user_id c)))).
Proof.
  intros _ _. split.
  - eexists. unfold mbind, M_bind, AuthReloader_add_task, AuthReloader_get_task,
      auth_setitem, auth_pop. simpl. rewrite lookup_insert_eq. reflexivity.
  - set (l := pending w (user_id c)).
    pose proof (list_sort_reverse_Permutation time (l ++ [c])) as Hperm.
    pose proof (list_sort_reverse_sorted time (l ++ [c])) as Hsort.
    destruct (list_sort_reverse time (l ++ [c])) as [|x s _] eqn:Hs
      using rev_ind.
    { apply Permutation_nil_l in Hperm. by destruct l. }
    assert (Hleast : forall y, y ∈ l ++ [c] -> time x <= time y).
    { intros y Hy. rewrite <- Hperm in Hy.
      apply elem_of_app in Hy as [Hy|Hy%list_elem_of_singleton].
      - apply (StronglySorted_app_1_elem_of _ _ _ _ _ Hsort Hy).
        by apply list_elem_of_singleton.
      - subst y. lia. }
    assert (Hx : x ∈ l ++ [c]).
    { rewrite <- Hperm. apply elem_of_app. right. by apply list_elem_of_singleton. }
    exists x. eexists. split; [|split].
    + unfold mbind, M_bind. rewrite add_task_run. apply get_task_some.
      rewrite pending_setitem, decide_True by done. exact Hs.
    + intros Hmin. rewrite (sort_snoc_least l c Hmin) in Hs.
      by apply app_inj_tail in Hs as [_ ->].
    + intros Hnot. apply not_Forall_Exists, Exists_exists in Hnot
        as (y & Hy & Hlt); [|apply _]. simpl in Hlt.
      assert (time x <= time y)
        by (apply Hleast, elem_of_app; by left).
      assert (time x < time c) by lia.
      apply elem_of_app in Hx as [Hx|Hx%list_elem_of_singleton]; [|subst; lia].
      split; [done|]. split; [done|].
      apply Forall_forall. intros z Hz. apply Hleast, elem_of_app. by left.
Qed.

Lemma stores_shared_across_instances_witness :
  let c := demo_chain "alice" 5 "id" in
  let w := mkWorld (Any := Z) ∅
             {[ "alice"%string := [demo_chain "alice" 7 "old";
                                   demo_chain "alice" 1 "early"] ]} in
  (exists w', (AuthReloader_add_task (mkAuthReloader 0) c;;
               AuthReloader_get_task (mkAuthReloader 1) (uuid c)) w
              = Ok (Some c, w')) /\
  (exists x w',
     (ChainReloader_add_task (mkChainReloader 0) c;;
      ChainReloader_get_task (mkChainReloader 1) (user_id c)) w
     = Ok (Some x, w') /\
     (Forall (fun y => time c <= time y) (pending w (user_id c)) -> x = c) /\
     (~ Forall (fun y => time c <= time y) (pending w (user_id c)) ->
      x ∈ pending w (user_id c) /\ time x < time c /\
      Forall (fun y => time x <= time y) (pending w (user_id c)))).
Proof.
  apply (stores_shared_across_instances (mkAuthReloader 0) (mkAuthReloader 1)
           (mkChainReloader 0) (mkChainReloader 1)).
  - discriminate.
  - discriminate.
Defined.

(** Both cases on the list 7, 1 of one user: adding a chain of time 5
    another instance gets the chain of time 1; adding a chain of time 0 it
    gets that chain. *)
Example stores_shared_both_cases :
  let w := mkWorld (Any := Z) ∅
             {[ "alice"%string := [demo_chain "alice" 7 "old";
                                   demo_chain "alice" 1 "early"] ]} in
  (exists w', (ChainReloader_add_task (mkChainReloader 0)
                 (demo_chain "alice" 5 "id");;
               ChainReloader_get_task (mkChainReloader 1) "alice") w
              = Ok (Some (demo_chain "alice" 1 "early"), w')) /\
  (exists w', (ChainReloader_add_task (mkChainReloader 0)
                 (demo_chain "alice" 0 "id");;
               ChainReloader_get_task (mkChainReloader 1) "alice") w
              = Ok (Some (demo_chain "alice" 0 "id"), w')).
Proof. split; eexists; vm_compute; reflexivity. Qed.

(** ** Dictionaries in insertion order *)

Section DictFacts.
Context {K V : Type} `{!EqDecision K}.
Implicit Types (d : list (K * V)) (k : K) (v : V).

Lemma dict_get_setitem k v d k' :
  dict_get (dict_setitem k v d) k'
  = if decide (k = k') then Some v else dict_get d k'.
Proof.
  induction d as [|[k0 v0] d IH]; simpl.
  - repeat case_decide; congruence.
  - repeat (case_decide; simpl); congruence.
Qed.

Lemma dict_setitem_keys_old k v d :
  k ∈ d.*1 -> (dict_setitem k v d).*1 = d.*1.
Proof.
  induction d as [|[k0 v0] d IH]; simpl; [by intros ?%elem_of_nil|].
  intros Hin. case_decide as Hk; simpl; [by subst|].
  apply elem_of_cons in Hin as [?|?]; [congruence|]. f_equal. by apply IH.
Qed.

Lemma dict_setitem_keys_new k v d :
  k ∉ d.*1 -> (dict_setitem k v d).*1 = d.*1 ++ [k].
Proof.
  induction d as [|[k0 v0] d IH]; simpl; [done|].
  intros [? ?]%not_elem_of_cons. case_decide; [congruence|].
  simpl. f_equal. by apply IH.
Qed.

Lemma dict_get_None d k : k ∉ d.*1 -> dict_get d k = None.
Proof.
  induction d as [|[k0 v0] d IH]; simpl; [done|].
  intros Hk. apply not_elem_of_cons in Hk as [? ?].
  case_decide; [congruence|auto].
Qed.

Lemma dict_get_elem_of d k v : NoDup d.*1 -> (k, v) ∈ d -> dict_get d k = Some v.
Proof.
  induction d as [|[k0 v0] d IH]; simpl; [by intros _ ?%elem_of_nil|].
  intros [Hk0 Hd]%NoDup_cons [[= -> ->]|Hin]%elem_of_cons.
  - by case_decide.
  - case_decide as Hk; [|auto]. subst k0. destruct Hk0.
    apply list_elem_of_fmap. by exists (k, v).
Qed.

Lemma dict_find_None `{!EqDecision V} d v : v ∉ d.*2 -> dict_find d v = None.
Proof.
  induction d as [|[k0 v0] d IH]; simpl; [done|].
  intros Hv. apply not_elem_of_cons in Hv as [? ?].
  case_decide; [congruence|auto].
Qed.

End DictFacts.

(** ** ToolManager *)

Section RegistryFacts.
Context {Function Pattern T : Type}.
Context `{!FunctionType Function, !ToolType Function Pattern T}.
Implicit Types (adds : list (string * Function * T)) (n : string).
Implicit Types (tm : ToolManager Function T).

Lemma spec_names_snoc adds a :
  spec_names (adds ++ [a])
  = if decide (a.1.1 ∈ spec_names adds) then spec_names adds
    else spec_names adds ++ [a.1.1].
Proof. unfold spec_names. by rewrite foldl_app. Qed.

Lemma spec_entry_snoc adds a n :
  spec_entry (adds ++ [a]) n
  = if decide (a.1.1 = n) then Some (a.1.2, a.2) else spec_entry adds n.
Proof.
  unfold spec_entry. rewrite filter_app, filter_cons, filter_nil.
  case_decide; [by rewrite last_snoc|by rewrite app_nil_r].
Qed.

Lemma spec_entry_elem_of adds n f tool :
  spec_entry adds n = Some (f, tool) -> (n, f, tool) ∈ adds.
Proof.
  unfold spec_entry.
  destruct (last _) as [[[n' f'] tool']|] eqn:Hlast; [|done].
  intros [= -> ->]. apply last_Some_elem_of, list_elem_of_filter in Hlast.
  simpl in Hlast. by destruct Hlast as [-> ?].
Qed.

Lemma add_tools_snoc adds a :
  add_tools (adds ++ [a]) = add_tool (add_tools adds) a.1.1 a.1.2 a.2.
Proof. unfold add_tools. by rewrite foldl_app. Qed.

(** The two dictionaries after a history of [add_tool] calls. *)
Lemma add_tools_inv adds :
  (tm_tool (add_tools adds)).*1 = spec_names adds /\
  (tm_function (add_tools adds)).*1 = spec_names adds /\
  NoDup (spec_names adds) /\
  forall n,
    get_tool (add_tools adds) n = snd <$> spec_entry adds n /\
    get_function (add_tools adds) n = fst <$> spec_entry adds n.
Proof.
  induction adds as [|a adds (Ht & Hf & Hnd & Hget)] using rev_ind.
  - repeat split. constructor.
  - rewrite add_tools_snoc, spec_names_snoc. unfold add_tool. simpl.
    destruct (decide (a.1.1 ∈ spec_names adds)) as [Hin|Hin].
    + rewrite !dict_setitem_keys_old by (by rewrite ?Ht, ?Hf).
      split_and!; [done..|]. intros n. unfold get_tool, get_function. simpl.
      rewrite !dict_get_setitem, spec_entry_snoc.
      case_decide; [done|apply Hget].
    + rewrite !dict_setitem_keys_new by (by rewrite ?Ht, ?Hf).
      rewrite Ht, Hf. split_and!; [done|done| |].
      * apply NoDup_app. split_and!; [done| |apply NoDup_singleton].
        intros x Hx ->%list_elem_of_singleton. done.
      * intros n. unfold get_tool, get_function. simpl.
        rewrite !dict_get_setitem, spec_entry_snoc.
        case_decide; [done|apply Hget].
Qed.

Lemma run_all_check_loop_omap tm text ignore items _pass :
  run_all_check_loop tm text ignore items _pass
  = _pass ++ omap (run_all_check_item tm text ignore) items.
Proof.
  revert _pass. induction items as [|[n tool] items IH]; intros _pass; simpl.
  - by rewrite app_nil_r.
  - rewrite IH. unfold run_all_check_item at 2. simpl.
    destruct (func_message _ _ _); [|done].
    case_bool_decide; [done|]. by rewrite <- app_assoc.
Qed.

(** [run_all_check] after a history of [add_tool] calls. *)
Lemma run_all_check_add_tools adds text ignore :
  run_all_check (add_tools adds) text ignore
  = Some <$> spec_run_all_check adds text (default [] ignore).
Proof.
  destruct (add_tools_inv adds) as (Ht & Hf & Hnd & Hget).
  unfold run_all_check, get_all_tool, spec_run_all_check.
  rewrite run_all_check_loop_omap, list_fmap_omap. simpl.
  apply list_omap_ext. rewrite <- Ht. apply Forall2_fmap_r.
  apply Forall_Forall2_diag, Forall_forall. intros [n tool] Hin.
  assert (Hn : get_tool (add_tools adds) n = Some tool).
  { apply dict_get_elem_of; [by rewrite Ht|done]. }
  destruct (Hget n) as [Hgt Hgf]. rewrite Hgt in Hn.
  unfold run_all_check_item, spec_matches. simpl. rewrite Hgf.
  destruct (spec_entry adds n) as [[f tool']|]; [|done].
  injection Hn as ->. simpl.
  destruct (func_message _ _ _) as [f'|] eqn:Hfm.
  - destruct (decide (n ∈ default [] ignore)) as [Hi|Hi].
    + rewrite bool_decide_eq_true_2 by done.
      rewrite bool_decide_eq_false_2; [done|]. intros [_ ?]. done.
    + rewrite bool_decide_eq_false_2 by done.
      rewrite bool_decide_eq_true_2; [done|]. split; [by eexists|done].
  - rewrite bool_decide_eq_false_2; [done|]. intros [[? [=]] _].
Qed.

Lemma load_add_tools (candidates : list (Function * T)) :
  load candidates = add_tools (accepted candidates).
Proof.
  unfold load, add_tools, accepted. generalize (@ToolManager_init Function T).
  induction candidates as [|[f tool] cs IH]; intros tm; simpl; [done|].
  rewrite IH. unfold listener. simpl.
  destruct (pre_check tool (tool_init tool)) as [[]|]; done.
Qed.

Lemma accepted_elem_of (candidates : list (Function * T)) n f tool :
  (n, f, tool) ∈ accepted candidates ->
  (f, tool) ∈ candidates /\ pre_check tool (tool_init tool) = CheckBool true
  /\ n = name f.
Proof.
  unfold accepted. intros ([f' tool'] & Hin & Hc)%list_elem_of_omap.
  simpl in Hc. destruct (pre_check tool' _) as [[]|] eqn:Hpre; try done.
  by injection Hc as <- <- <-.
Qed.

Lemma tm_run_add_tools (calls : list (tm_call (Function := Function) (T := T))) :
  tm_run calls = add_tools (tm_adds calls).
Proof.
  unfold tm_run, add_tools, tm_adds. generalize (@ToolManager_init Function T).
  induction calls as [|c calls IH]; intros tm; simpl; [done|].
  rewrite IH. by destruct c.
Qed.

End RegistryFacts.

(** ** Substrings *)

Lemma prefix_spec (p s : string) :
  String.prefix p s = true <-> exists post, s = String.append p post.
Proof.
  revert s. induction p as [|a p IH]; intros s.
  - destruct s; simpl; (split; [by eexists|done]).
  - destruct s as [|b s]; simpl; [split; [done|by intros [? ?]]|].
    destruct (Ascii.ascii_dec a b) as [->|Hab].
    + rewrite IH. split; intros [post Hs]; exists post.
      * by subst.
      * change (String b s = String b (String.append p post)) in Hs. congruence.
    + split; [done|]. intros [post Hs].
      change (String b s = String a (String.append p post)) in Hs. congruence.
Qed.

Lemma str_in_spec (sub s : string) :
  str_in sub s = true
  <-> exists pre post, s = String.append pre (String.append sub post).
Proof.
  induction s as [|a s IH]; cbn [str_in].
  - rewrite orb_false_r, prefix_spec. split.
    + intros [post Hs]. by exists EmptyString, post.
    + intros ([|? ?] & post & Hs); [by exists post|done].
  - rewrite orb_true_iff, prefix_spec, IH. split.
    + intros [[post Hs]|(pre & post & ->)].
      * by exists EmptyString, post.
      * by exists (String a pre), post.
    + intros ([|b pre] & post & Hs).
      * left. by exists post.
      * right. exists pre, post.
        change (String a s
                = String b (String.append pre (String.append sub post))) in Hs.
        congruence.
Qed.

Lemma keywords_loop_spec (kws : list string) (text : string) :
  keywords_loop kws text = true <-> exists k, k ∈ kws /\ str_in k text = true.
Proof.
  induction kws as [|i kws IH]; simpl.
  - split; [done|]. by intros (k & ?%elem_of_nil & _).
  - destruct (str_in i text) eqn:Hi.
    + split; [|done]. intros _. exists i. split; [apply list_elem_of_here|done].
    + rewrite IH. split; intros (k & Hk & Hin).
      * exists k. split; [by apply list_elem_of_further|done].
      * apply elem_of_cons in Hk as [->|Hk]; [congruence|]. by exists k.
Qed.

(** ** BaseTool.func_message *)

(** C5: the default [func_message] returns the tool's [function] exactly
    when some keyword occurs in the text, or else no keyword does and there
    is a pattern that matches from the first character of the text; in every
    other case it returns [None]. *)
Theorem BaseTool_func_message_policy {Function Pattern : Type}
    `{!PatternType Pattern} (self : BaseTool Function Pattern)
    (message_text : string) :
  let keyword_hit :=
    exists k, k ∈ keywords self /\
      exists pre post,
        message_text = String.append pre (String.append k post) in
  let pattern_hit :=
    exists p, pattern self = Some p /\
      is_Some (Pattern_match p message_text 0) in
  (BaseTool_func_message self message_text = Some (function self)
   <-> keyword_hit \/ (~ keyword_hit /\ pattern_hit)) /\
  (BaseTool_func_message self message_text = None
   <-> ~ (keyword_hit \/ (~ keyword_hit /\ pattern_hit))).
Proof.
  intros keyword_hit pattern_hit.
  assert (Hkw : keywords_loop (keywords self) message_text = true
                <-> keyword_hit).
  { rewrite keywords_loop_spec. unfold keyword_hit.
    split; intros (k & Hk & Hin); exists k; (split; [done|]);
      by apply str_in_spec. }
  unfold BaseTool_func_message.
  destruct (keywords_loop _ _) eqn:Hloop.
  - assert keyword_hit by by apply Hkw. split; split; try done; tauto.
  - assert (~ keyword_hit) by (rewrite <- Hkw; done).
    destruct (pattern self) as [p|] eqn:Hp.
    + destruct (Pattern_match p message_text 0) as [j|] eqn:Hm.
      * assert pattern_hit by (exists p; split; [done|]; rewrite Hm; by eexists).
        split; split; try done; tauto.
      * assert (~ pattern_hit).
        { intros (p' & [= <-] & Hsome). rewrite Hm in Hsome.
          by destruct Hsome. }
        split; split; try done; tauto.
    + assert (~ pattern_hit) by (by intros (p' & [=] & _)).
      split; split; try done; tauto.
Qed.

(** The keywords are tried in their order and the loop returns at the first
    one found in the text: what follows it plays no part. *)
Lemma keywords_loop_first_hit (before after : list string) (k text : string) :
  str_in k text = true ->
  keywords_loop (before ++ k :: after) text = keywords_loop (before ++ [k]) text.
Proof.
  intros Hk. induction before as [|i before IH]; simpl; [by rewrite Hk|].
  by destruct (str_in i text).
Qed.

(** ** run_all_check *)

(** C6: whatever calls were made on a fresh manager, [run_all_check] returns
    the descriptors of the registered names, in the order in which the names
    were first inserted, for which the handler type registered last under the
    name matches the text and the name is not in [ignore]. *)
Theorem run_all_check_spec {Function Pattern T : Type}
    `{!FunctionType Function, !ToolType Function Pattern T}
    (calls : list tm_call) (message_text : string)
    (ignore : option (list string)) :
  run_all_check (tm_run calls) message_text ignore
  = Some <$> spec_run_all_check (tm_adds calls) message_text (default [] ignore).
Proof. rewrite tm_run_add_tools. apply run_all_check_add_tools. Qed.

(** The scenario of the documentation. *)
Example run_all_check_weather :
  let tm := load [(weather_function, Weather); (broken_function, Broken)] in
  run_all_check tm "what's the weather today" None = [Some weather_function]
  /\ run_all_check tm "what's the weather today" (Some ["weather"%string]) = []
  /\ run_all_check tm "broken" None = [].
Proof. vm_compute. done. Qed.

(** A name registered twice keeps its first place and takes the last
    handler type and descriptor. *)
Example run_all_check_overwrite :
  let tm := add_tools [("w"%string, broken_function, Broken);
                       ("x"%string, weather_function, Weather);
                       ("w"%string, weather_function, Forecast)] in
  run_all_check tm "forecast of the weather" None
  = [Some weather_function; Some weather_function]
  /\ run_all_check tm "forecast of the weather" (Some ["x"%string])
     = [Some weather_function]
  /\ run_all_check tm "the weather forecast" None = [Some weather_function].
Proof. vm_compute. done. Qed.

(** ** listener *)

(** C4: a candidate whose [pre_check()] is not [True] is not added by
    [listener], which leaves the manager as it was; after loading any
    program the handler type is under no name of the manager, and every
    descriptor that [run_all_check] returns was registered with a handler
    type whose [pre_check()] is [True]. *)
Theorem listener_rejects_failed_pre_check {Function Pattern T : Type}
    `{!FunctionType Function, !ToolType Function Pattern T}
    (function : Function) (func : T) :
  pre_check func (tool_init func) <> CheckBool true ->
  (forall tm, listener function func tm = tm) /\
  (forall candidates,
     let tm := load candidates in
     find_tool tm func = None /\
     (forall n, get_tool tm n <> Some func) /\
     forall text ignore d,
       d ∈ run_all_check tm text ignore ->
       exists f tool,
         d = Some f /\ (f, tool) ∈ candidates /\ tool <> func /\
         pre_check tool (tool_init tool) = CheckBool true).
Proof.
  intros Hpre. split.
  { intros tm. unfold listener.
    destruct (pre_check func (tool_init func)) as [[]|]; done. }
  intros candidates tm. subst tm. rewrite load_add_tools.
  destruct (add_tools_inv (accepted candidates)) as (Ht & _ & Hnd & Hget).
  assert (Hno : forall n, get_tool (add_tools (accepted candidates)) n
                          <> Some func).
  { intros n Hn. destruct (Hget n) as [Hgt _]. rewrite Hgt in Hn.
    destruct (spec_entry _ n) as [[f tool]|] eqn:He; [|done].
    injection Hn as ->.
    apply spec_entry_elem_of, accepted_elem_of in He as (_ & ? & _). done. }
  split_and!; [|done|].
  - apply dict_find_None. intros ([n tool] & -> & Hin)%list_elem_of_fmap.
    apply (Hno n). apply dict_get_elem_of; [by rewrite Ht|done].
  - intros text ignore d. rewrite run_all_check_add_tools.
    intros (f & -> & Hf)%list_elem_of_fmap.
    apply list_elem_of_omap in Hf as (n & _ & Hm).
    unfold spec_matches in Hm.
    destruct (spec_entry _ n) as [[f' tool]|] eqn:He; [|done].
    case_bool_decide; [|done]. injection Hm as ->.
    apply spec_entry_elem_of, accepted_elem_of in He as (? & ? & _).
    exists f, tool. split_and!; [done..| |done]. congruence.
Qed.

Lemma listener_rejects_failed_pre_check_witness :
  (forall tm, listener broken_function Broken tm = tm) /\
  (forall candidates,
     let tm := load candidates in
     find_tool tm Broken = None /\
     (forall n, get_tool tm n <> Some Broken) /\
     forall text ignore d,
       d ∈ run_all_check tm text ignore ->
       exists f tool,
         d = Some f /\ (f, tool) ∈ candidates /\ tool <> Broken /\
         pre_check tool (tool_init tool) = CheckBool true).
Proof.
  apply (listener_rejects_failed_pre_check broken_function Broken).
  simpl. discriminate.
Defined.

(** ** The two dictionaries of a manager *)

(** C8: after any sequence of calls on a fresh manager the two dictionaries
    have the same keys (in the same order), and [add_tool] then puts its
    name in both, with the values given, whether the name was there or
    not. *)
Theorem tool_and_function_keys_agree {Function Pattern T : Type}
    `{!FunctionType Function, !ToolType Function Pattern T}
    (calls : list tm_call) :
  (tm_tool (tm_run calls)).*1 = (tm_function (tm_run calls)).*1 /\
  forall name function tool,
    let tm' := add_tool (tm_run calls) name function tool in
    get_tool tm' name = Some tool /\
    get_function tm' name = Some function /\
    (tm_tool tm').*1 = (tm_function tm').*1.
Proof.
  split.
  - rewrite tm_run_add_tools.
    destruct (add_tools_inv (tm_adds calls)) as (-> & -> & _). done.
  - intros n f tool tm'. subst tm'.
    unfold get_tool, get_function, add_tool. simpl.
    rewrite !dict_get_setitem, !decide_True by done. split_and!; [done..|].
    change (add_tool (tm_run calls) n f tool)
      with (tm_step (tm_run calls) (CallAddTool n f tool)).
    pose proof (tm_run_add_tools (calls ++ [CallAddTool n f tool])) as Hrun.
    unfold tm_run in Hrun. rewrite foldl_app in Hrun. simpl in Hrun.
    unfold add_tool in Hrun.
    pose proof (f_equal (fun tm => (tm_tool tm).*1) Hrun) as H1.
    pose proof (f_equal (fun tm => (tm_function tm).*1) Hrun) as H2.
    simpl in H1, H2. unfold tm_run. rewrite H1, H2.
    destruct (add_tools_inv (tm_adds (calls ++ [CallAddTool n f tool])))
      as (-> & -> & _). done.
Qed.

(** ** Lookups that find nothing *)

(** C7: a lookup that finds nothing returns [None], and raises nothing:
    [ChainReloader.get_task] for a user with no list or an empty list,
    [AuthReloader.get_task] for an unknown uuid, and the four lookups of
    [ToolManager] for a name, a handler type or a descriptor that is not
    there.  The stores are left as they were. *)
Theorem lookup_miss_returns_None {Any Function Pattern T : Type}
    `{!FunctionType Function, !ToolType Function Pattern T}
    (chains : ChainReloader) (auths : AuthReloader) (w : World Any)
    (tm : ToolManager Function T)
    (user_id uuid name : string) (tool : T) (func : Function) :
  pending w user_id = [] ->
  AuthReloader_auth w !! uuid = None ->
  name ∉ (tm_tool tm).*1 ->
  name ∉ (tm_function tm).*1 ->
  tool ∉ (tm_tool tm).*2 ->
  func ∉ (tm_function tm).*2 ->
  ChainReloader_get_task chains user_id w = Ok (None, w) /\
  AuthReloader_get_task auths uuid w = Ok (None, w) /\
  get_tool tm name = None /\
  get_function tm name = None /\
  find_tool tm tool = None /\
  find_function tm func = None.
Proof.
  intros Hu Hid Hn Hn' Ht Hf. split_and!.
  - by apply get_task_none.
  - unfold AuthReloader_get_task, auth_pop. rewrite Hid, delete_id by done.
    by destruct w.
  - by apply dict_get_None.
  - by apply dict_get_None.
  - by apply dict_find_None.
  - by apply dict_find_None.
Qed.

Lemma lookup_miss_returns_None_witness :
  let w := mkWorld (Any := Z) {[ "id1"%string := demo_chain "alice" 1 "id1" ]}
             {[ "alice"%string := [demo_chain "alice" 1 "id1"];
                "bob"%string := [] ]} in
  let tm := load [(weather_function, Weather); (broken_function, Broken)] in
  ChainReloader_get_task (mkChainReloader 0) "bob" w = Ok (None, w) /\
  AuthReloader_get_task (mkAuthReloader 0) "id2" w = Ok (None, w) /\
  get_tool tm "broken" = None /\
  get_function tm "broken" = None /\
  find_tool tm Broken = None /\
  find_function tm broken_function = None.
Proof.
  intros w tm.
  apply (lookup_miss_returns_None (mkChainReloader 0) (mkAuthReloader 0) w tm
           "bob" "id2" "broken" Broken broken_function).
  - reflexivity.
  - reflexivity.
  - vm_compute. intros [Hx|Hx]%elem_of_cons; [done|by apply elem_of_nil in Hx].
  - vm_compute. intros [Hx|Hx]%elem_of_cons; [done|by apply elem_of_nil in Hx].
  - vm_compute. intros [Hx|Hx]%elem_of_cons; [done|by apply elem_of_nil in Hx].
  - vm_compute. intros [Hx|Hx]%elem_of_cons; [done|by apply elem_of_nil in Hx].
Defined.

(** A user who never had a chain, and one whose list has been emptied. *)
Example get_task_no_list :
  let w := mkWorld (Any := Z) ∅ {[ "bob"%string := [] ]} in
  ChainReloader_get_task (mkChainReloader 0) "carol" w = Ok (None, w)
  /\ ChainReloader_get_task (mkChainReloader 0) "bob" w = Ok (None, w).
Proof. split; by apply get_task_none. Qed.

(** * Further properties of the stores *)

Section CallFacts.
Context {Any : Type}.
Implicit Types (w : World Any) (c : call (Any := Any)).

(** What each call returns and how it leaves the two dictionaries. *)
Lemma run_call_inv c w r w' :
  run_call c w = Ok (r, w') ->
  match c with
  | AuthAdd _ task =>
      r = None /\
      w' = mkWorld (<[uuid task := task]> (AuthReloader_auth w))
             (ChainReloader_chain w)
  | AuthGet _ k =>
      r = AuthReloader_auth w !! k /\
      w' = mkWorld (delete k (AuthReloader_auth w)) (ChainReloader_chain w)
  | ChainAdd _ task =>
      r = None /\
      w' = mkWorld (AuthReloader_auth w)
             (<[user_id task :=
                  list_sort_reverse time (pending w (user_id task) ++ [task])]>
                (ChainReloader_chain w))
  | ChainGet _ u =>
      (pending w u = [] /\ r = None /\ w' = w) \/
      (exists l x, pending w u = l ++ [x] /\ r = Some x /\
         w' = mkWorld (AuthReloader_auth w) (<[u := l]> (ChainReloader_chain w)))
  end.
Proof.
  destruct c as [self task|self k|self task|self u]; simpl;
    unfold mbind, M_bind.
  - intros [= <- <-]. done.
  - intros [= <- <-]. done.
  - rewrite add_task_run. intros [= <- <-]. done.
  - destruct (pending w u) as [|x l _] eqn:E using rev_ind.
    + rewrite get_task_none by done. intros [= <- <-]. by left.
    + rewrite (get_task_some _ _ _ _ _ E). intros [= <- <-].
      right. by exists l, x.
Qed.

Lemma run_call_returns c w : exists r w', run_call c w = Ok (r, w').
Proof.
  destruct c as [self task|self k|self task|self u]; simpl;
    unfold mbind, M_bind.
  - by eexists _, _.
  - by eexists _, _.
  - rewrite add_task_run. by eexists _, _.
  - destruct (pending w u) as [|x l _] eqn:E using rev_ind.
    + rewrite get_task_none by done. by eexists _, _.
    + rewrite (get_task_some _ _ _ _ _ E). by eexists _, _.
Qed.

(** In a reachable state every chain is filed under its own [uuid] and
    queued under its own [user_id]. *)
Lemma reachable_keys w :
  reachable w ->
  (forall k x, AuthReloader_auth w !! k = Some x -> uuid x = k) /\
  (forall u, Forall (fun x => user_id x = u) (pending w u)).
Proof.
  induction 1 as [|w c r w' _ [IHa IHc] Hrun].
  - split.
    + intros k x. simpl. by rewrite lookup_empty.
    + intros u. unfold pending. simpl. rewrite lookup_empty. constructor.
  - apply run_call_inv in Hrun.
    destruct c as [self task|self k0|self task|self u0].
    + destruct Hrun as [_ ->]. split; [|done]. intros k x. simpl.
      rewrite lookup_insert. case_decide; [by intros [= <-]|apply IHa].
    + destruct Hrun as [_ ->]. split; [|done]. intros k x. simpl.
      rewrite lookup_delete. case_decide; [done|apply IHa].
    + destruct Hrun as [_ ->]. split; [done|]. intros u.
      rewrite pending_setitem. case_decide as Hu; [|apply IHc]. subst u.
      apply Forall_forall. intros x.
      rewrite list_sort_reverse_Permutation.
      intros [Hx|Hx%list_elem_of_singleton]%elem_of_app; [|by subst].
      specialize (IHc (user_id task)). rewrite Forall_forall in IHc. auto.
    + destruct Hrun as [(_ & _ & ->)|(l & x & Hl & _ & ->)]; [done|].
      split; [done|]. intros u.
      rewrite pending_setitem. case_decide as Hu; [|apply IHc]. subst u0.
      specialize (IHc u). rewrite Hl in IHc.
      by apply Forall_app in IHc as [? _].
Qed.

End CallFacts.

(** X1: no method of the two stores raises: in every state, reachable or
    not, a call returns.  The guards of [get_task] cover the subscript and
    the [pop], and [add_task] creates the list before it subscripts. *)
Theorem store_calls_never_raise {Any : Type} (c : call) (w : World Any) :
  exists r w', run_call c w = Ok (r, w').
Proof. apply run_call_returns. Qed.

(** X2: a call reads and writes one key of one dictionary: the other
    store is left as it was, and so is every other uuid or user. *)
Theorem store_calls_frame {Any : Type} (c : call) (w w' : World Any)
    (r : option (Chain Any)) :
  run_call c w = Ok (r, w') ->
  match c with
  | AuthAdd _ task =>
      ChainReloader_chain w' = ChainReloader_chain w /\
      forall k, k <> uuid task ->
        AuthReloader_auth w' !! k = AuthReloader_auth w !! k
  | AuthGet _ k0 =>
      ChainReloader_chain w' = ChainReloader_chain w /\
      forall k, k <> k0 -> AuthReloader_auth w' !! k = AuthReloader_auth w !! k
  | ChainAdd _ task =>
      AuthReloader_auth w' = AuthReloader_auth w /\
      forall u, u <> user_id task ->
        ChainReloader_chain w' !! u = ChainReloader_chain w !! u
  | ChainGet _ u0 =>
      AuthReloader_auth w' = AuthReloader_auth w /\
      forall u, u <> u0 ->
        ChainReloader_chain w' !! u = ChainReloader_chain w !! u
  end.
Proof.
  intros Hrun%run_call_inv.
  destruct c as [self task|self k0|self task|self u0].
  - destruct Hrun as [_ ->]. split; [done|]. intros k Hk. simpl.
    by rewrite lookup_insert_ne.
  - destruct Hrun as [_ ->]. split; [done|]. intros k Hk. simpl.
    by rewrite lookup_delete_ne.
  - destruct Hrun as [_ ->]. split; [done|]. intros u Hu. simpl.
    by rewrite lookup_insert_ne.
  - destruct Hrun as [(_ & _ & ->)|(l & x & _ & _ & ->)]; [done|].
    split; [done|]. intros u Hu. simpl. by rewrite lookup_insert_ne.
Qed.

Lemma store_calls_frame_witness :
  let w := mkWorld (Any := Z) {[ "id1"%string := demo_chain "alice" 1 "id1" ]}
             {[ "alice"%string := [demo_chain "alice" 1 "id1"] ]} in
  let w' := mkWorld (Any := Z) {[ "id1"%string := demo_chain "alice" 1 "id1" ]}
              {[ "alice"%string := [] ]} in
  AuthReloader_auth w' = AuthReloader_auth w /\
  forall u, u <> "alice"%string ->
    ChainReloader_chain w' !! u = ChainReloader_chain w !! u.
Proof.
  intros w w'.
  apply (store_calls_frame (ChainGet (mkChainReloader 0) "alice") w w'
           (Some (demo_chain "alice" 1 "id1"))).
  vm_compute. reflexivity.
Defined.

(** X3: [ChainReloader] never deletes a key: the users known to
    [ChainReloader.chain] only grow in number, and taking the last chain of
    a user leaves an empty list behind. *)
Theorem chain_keys_persist {Any : Type} (c : call) (w w' : World Any)
    (r : option (Chain Any)) :
  run_call c w = Ok (r, w') ->
  dom (ChainReloader_chain w) ⊆ dom (ChainReloader_chain w') /\
  forall self u x,
    c = ChainGet self u -> ChainReloader_chain w !! u = Some [x] ->
    r = Some x /\ ChainReloader_chain w' !! u = Some [].
Proof.
  intros Hrun%run_call_inv. split.
  - intros u Hu%elem_of_dom. apply elem_of_dom.
    destruct c as [self task|self k0|self task|self u0].
    + by destruct Hrun as [_ ->].
    + by destruct Hrun as [_ ->].
    + destruct Hrun as [_ ->]. simpl. rewrite lookup_insert.
      by case_decide.
    + destruct Hrun as [(_ & _ & ->)|(l & x & _ & _ & ->)]; [done|].
      simpl. rewrite lookup_insert. by case_decide.
  - intros self u x -> Hx.
    destruct Hrun as [(Hnil & _)|(l & y & Hl & -> & ->)];
      unfold pending in *; rewrite Hx in *; simpl in *; [done|].
    symmetry in Hl. apply app_singleton in Hl as [[-> [= ->]]|[_ [=]]].
    split; [done|]. by rewrite lookup_insert_eq.
Qed.

Lemma chain_keys_persist_witness :
  let w := mkWorld (Any := Z) ∅
             {[ "alice"%string := [demo_chain "alice" 1 "id1"] ]} in
  let w' := mkWorld (Any := Z) ∅ {[ "alice"%string := [] ]} in
  dom (ChainReloader_chain w) ⊆ dom (ChainReloader_chain w') /\
  forall self u x,
    ChainGet (Any := Z) (mkChainReloader 0) "alice" = ChainGet self u ->
    ChainReloader_chain w !! u = Some [x] ->
    Some (demo_chain "alice" 1 "id1") = Some x /\
    ChainReloader_chain w' !! u = Some [].
Proof.
  intros w w'.
  apply (chain_keys_persist (ChainGet (mkChainReloader 0) "alice") w w'
           (Some (demo_chain "alice" 1 "id1"))).
  vm_compute. reflexivity.
Defined.

(** X4: chains with different uuids do not disturb one another in
    [AuthReloader]: once both are added, each [get_task] returns the chain
    of its own uuid, whether they are collected in the order they were added
    or in the opposite order. *)
Theorem auth_distinct_uuids_independent {Any : Type} (self : AuthReloader)
    (c1 c2 : Chain Any) (w : World Any) :
  uuid c1 <> uuid c2 ->
  (exists w',
     (AuthReloader_add_task self c1;; AuthReloader_add_task self c2;;
      r1 ← AuthReloader_get_task self (uuid c1);
      r2 ← AuthReloader_get_task self (uuid c2);
      mret (r1, r2)) w = Ok ((Some c1, Some c2), w')) /\
  (exists w',
     (AuthReloader_add_task self c1;; AuthReloader_add_task self c2;;
      r2 ← AuthReloader_get_task self (uuid c2);
      r1 ← AuthReloader_get_task self (uuid c1);
      mret (r1, r2)) w = Ok ((Some c1, Some c2), w')).
Proof.
  intros Hne. split; eexists;
    unfold mbind, M_bind, mret, M_ret, AuthReloader_add_task,
      AuthReloader_get_task, auth_setitem, auth_pop; simpl.
  - rewrite lookup_insert_ne, lookup_insert_eq by done.
    rewrite lookup_delete_ne, lookup_insert_eq by done. reflexivity.
  - rewrite lookup_insert_eq, lookup_delete_ne, lookup_insert_ne by done.
    rewrite lookup_insert_eq. reflexivity.
Qed.

Lemma auth_distinct_uuids_independent_witness :
  let c1 := demo_chain "alice" 1 "a" in
  let c2 := demo_chain "bob" 2 "b" in
  let w := mkWorld (Any := Z) {[ "c"%string := demo_chain "carol" 3 "c" ]} ∅ in
  (exists w',
     (AuthReloader_add_task (mkAuthReloader 0) c1;;
      AuthReloader_add_task (mkAuthReloader 0) c2;;
      r1 ← AuthReloader_get_task (mkAuthReloader 0) (uuid c1);
      r2 ← AuthReloader_get_task (mkAuthReloader 0) (uuid c2);
      mret (r1, r2)) w = Ok ((Some c1, Some c2), w')) /\
  (exists w',
     (AuthReloader_add_task (mkAuthReloader 0) c1;;
      AuthReloader_add_task (mkAuthReloader 0) c2;;
      r2 ← AuthReloader_get_task (mkAuthReloader 0) (uuid c2);
      r1 ← AuthReloader_get_task (mkAuthReloader 0) (uuid c1);
      mret (r1, r2)) w = Ok ((Some c1, Some c2), w')).
Proof.
  intros c1 c2 w.
  apply (auth_distinct_uuids_independent (mkAuthReloader 0) c1 c2 w).
  simpl. discriminate.
Defined.

(** X5: [AuthReloader.add_task] overwrites: of two chains with the same
    uuid the one added last is the one collected, once, and the first is
    gone. *)
Theorem auth_same_uuid_overwrites {Any : Type} (self : AuthReloader)
    (c1 c2 : Chain Any) (w : World Any) :
  uuid c1 = uuid c2 ->
  exists w',
    (AuthReloader_add_task self c1;; AuthReloader_add_task self c2;;
     r1 ← AuthReloader_get_task self (uuid c1);
     r2 ← AuthReloader_get_task self (uuid c2);
     mret (r1, r2)) w = Ok ((Some c2, None), w').
Proof.
  intros Heq. eexists.
  unfold mbind, M_bind, mret, M_ret, AuthReloader_add_task,
    AuthReloader_get_task, auth_setitem, auth_pop. simpl.
  rewrite Heq, lookup_insert_eq, lookup_delete_eq. reflexivity.
Qed.

Lemma auth_same_uuid_overwrites_witness :
  exists w',
    (AuthReloader_add_task (mkAuthReloader 0) (demo_chain "alice" 1 "a");;
     AuthReloader_add_task (mkAuthReloader 0) (demo_chain "bob" 2 "a");;
     r1 ← AuthReloader_get_task (mkAuthReloader 0) (uuid (demo_chain "alice" 1 "a"));
     r2 ← AuthReloader_get_task (mkAuthReloader 0) (uuid (demo_chain "bob" 2 "a"));
     mret (r1, r2)) (World_init (Any := Z))
    = Ok ((Some (demo_chain "bob" 2 "a"), None), w').
Proof.
  apply (auth_same_uuid_overwrites (mkAuthReloader 0)
           (demo_chain "alice" 1 "a") (demo_chain "bob" 2 "a") World_init).
  reflexivity.
Defined.

(** X6: what [AuthReloader.get_task] hands out for a uuid is a chain with
    that uuid, in every state the stores can reach. *)
Theorem auth_get_task_uuid {Any : Type} (self : AuthReloader) (k : string)
    (w w' : World Any) (x : Chain Any) :
  reachable w ->
  AuthReloader_get_task self k w = Ok (Some x, w') ->
  uuid x = k.
Proof.
  intros [Hauth _]%reachable_keys Hget.
  apply (run_call_inv (AuthGet self k)) in Hget as [Hx _].
  by apply Hauth.
Qed.

Lemma auth_get_task_uuid_witness :
  uuid (demo_chain "alice" 1 "a") = "a"%string.
Proof.
  apply (auth_get_task_uuid (mkAuthReloader 1) "a"
           (mkWorld {[ "a"%string := demo_chain "alice" 1 "a" ]} ∅)
           World_init).
  - apply (reachable_call World_init
             (AuthAdd (mkAuthReloader 0) (demo_chain "alice" 1 "a")) None).
    + apply reachable_init.
    + vm_compute. reflexivity.
  - vm_compute. reflexivity.
Defined.

(** X7: what [ChainReloader.get_task] hands out for a user is a chain of
    that user, in every state the stores can reach. *)
Theorem chain_get_task_user {Any : Type} (self : ChainReloader) (u : string)
    (w w' : World Any) (x : Chain Any) :
  reachable w ->
  ChainReloader_get_task self u w = Ok (Some x, w') ->
  user_id x = u.
Proof.
  intros [_ Husers]%reachable_keys Hget.
  apply (run_call_inv (ChainGet self u)) in Hget
    as [(_ & [=] & _)|(l & y & Hl & [= ->] & _)].
  specialize (Husers u). rewrite Hl in Husers.
  apply Forall_app in Husers as [_ Hy]. by inversion Hy.
Qed.

Lemma chain_get_task_user_witness :
  user_id (demo_chain "alice" 1 "a") = "alice"%string.
Proof.
  apply (chain_get_task_user (mkChainReloader 1) "alice"
           (mkWorld ∅ {[ "alice"%string := [demo_chain "alice" 1 "a"] ]})
           (mkWorld ∅ {[ "alice"%string := [] ]})).
  - apply (reachable_call World_init
             (ChainAdd (mkChainReloader 0) (demo_chain "alice" 1 "a")) None).
    + apply reachable_init.
    + vm_compute. reflexivity.
  - vm_compute. reflexivity.
Defined.

(** A state reached by [add_task] calls from a reachable state is
    reachable. *)
Lemma reachable_add_tasks {Any : Type} (self : ChainReloader)
    (cs : list (Chain Any)) (w w' : World Any) :
  reachable w -> add_tasks self cs w = Ok (tt, w') -> reachable w'.
Proof.
  revert w. induction cs as [|c cs IH]; intros w Hw; simpl.
  - by intros [= <-].
  - unfold mbind, M_bind.
    destruct (ChainReloader_add_task self c w) as [[[] w1]|e] eqn:Hadd; [|done].
    apply IH. apply (reachable_call w (ChainAdd self c) None); [done|].
    simpl. unfold mbind, M_bind. by rewrite Hadd.
Qed.

(** X8: in every state the stores can reach, the list of every user is in
    descending order of [time]. *)
Theorem chain_lists_sorted_descending {Any : Type} (w : World Any) (u : string) :
  reachable w ->
  StronglySorted (fun x y => time y <= time x) (pending w u).
Proof. apply reachable_sorted. Qed.

(** The state reached by adding, for one user, chains of times 5, 1, 3, 1
    in that order: the list is 5, 3, 1, 1. *)
Lemma chain_lists_sorted_descending_witness :
  let w := mkWorld (Any := Z) ∅
             {[ "alice"%string := [demo_chain "alice" 5 "a";
                                   demo_chain "alice" 3 "c";
                                   demo_chain "alice" 1 "b";
                                   demo_chain "alice" 1 "d"] ]} in
  reachable w /\
  StronglySorted (fun x y : Chain Z => time y <= time x) (pending w "alice").
Proof.
  intros w.
  assert (Hw : reachable w).
  { apply (reachable_add_tasks (mkChainReloader 0)
             [demo_chain "alice" 5 "a"; demo_chain "alice" 1 "b";
              demo_chain "alice" 3 "c"; demo_chain "alice" 1 "d"]
             World_init w).
    - apply reachable_init.
    - vm_compute. reflexivity. }
  split; [exact Hw|]. by apply chain_lists_sorted_descending.
Defined.

(** X9: one [get_task] in a reachable state, for a user with chains
    waiting: it returns a chain whose [time] is the least of those waiting
    and removes that one chain, leaving the others in their order. *)
Theorem chain_get_task_takes_least {Any : Type} (self : ChainReloader)
    (u : string) (w : World Any) :
  reachable w ->
  pending w u <> [] ->
  exists x w',
    ChainReloader_get_task self u w = Ok (Some x, w') /\
    pending w u = pending w' u ++ [x] /\
    Forall (fun y => time x <= time y) (pending w u).
Proof.
  intros Hw Hne. pose proof (reachable_sorted w u Hw) as Hsort.
  destruct (pending w u) as [|x l _] eqn:E using rev_ind; [done|].
  eexists x, _. split; [by apply get_task_some|]. split.
  - by rewrite pending_setitem, decide_True.
  - apply Forall_app. split; [|by repeat constructor].
    apply Forall_forall. intros y Hy.
    apply (StronglySorted_app_1_elem_of _ _ _ _ _ Hsort Hy).
    by apply list_elem_of_singleton.
Qed.

(** In the state reached by adding chains of times 5, 1, 3, 1 for one user
    and a chain for another. *)
Lemma chain_get_task_takes_least_witness :
  let w := mkWorld (Any := Z) ∅
             {[ "alice"%string := [demo_chain "alice" 5 "a";
                                   demo_chain "alice" 3 "c";
                                   demo_chain "alice" 1 "b";
                                   demo_chain "alice" 1 "d"];
                "bob"%string := [demo_chain "bob" 0 "e"] ]} in
  reachable w /\
  exists x w',
    ChainReloader_get_task (mkChainReloader 1) "alice" w = Ok (Some x, w') /\
    pending w "alice" = pending w' "alice" ++ [x] /\
    Forall (fun y => time x <= time y) (pending w "alice").
Proof.
  intros w.
  assert (Hw : reachable w).
  { apply (reachable_add_tasks (mkChainReloader 0)
             [demo_chain "alice" 5 "a"; demo_chain "alice" 1 "b";
              demo_chain "bob" 0 "e";
              demo_chain "alice" 3 "c"; demo_chain "alice" 1 "d"]
             World_init w).
    - apply reachable_init.
    - vm_compute. reflexivity. }
  split; [exact Hw|]. apply chain_get_task_takes_least; [exact Hw|].
  vm_compute. discriminate.
Defined.

(** What that call returns and leaves: the chain of time 1 added last, and
    the list 5, 3, 1. *)
Example chain_get_task_takes_least_example :
  let w := mkWorld (Any := Z) ∅
             {[ "alice"%string := [demo_chain "alice" 5 "a";
                                   demo_chain "alice" 3 "c";
                                   demo_chain "alice" 1 "b";
                                   demo_chain "alice" 1 "d"] ]} in
  exists w',
    ChainReloader_get_task (mkChainReloader 1) "alice" w
    = Ok (Some (demo_chain "alice" 1 "d"), w') /\
    pending w' "alice" = [demo_chain "alice" 5 "a"; demo_chain "alice" 3 "c";
                          demo_chain "alice" 1 "b"].
Proof. eexists. split; vm_compute; reflexivity. Qed.

(** * Further properties of the registry *)

Section DictFacts2.
Context {K V : Type} `{!EqDecision K}.
Implicit Types (d : list (K * V)) (k : K) (v : V).

Lemma dict_setitem_setitem k v1 v2 d :
  dict_setitem k v2 (dict_setitem k v1 d) = dict_setitem k v2 d.
Proof.
  induction d as [|[k0 v0] d IH]; simpl.
  - by case_decide.
  - case_decide; simpl; case_decide; try done. by rewrite IH.
Qed.

Lemma dict_get_Some_elem_of d k v : dict_get d k = Some v -> (k, v) ∈ d.
Proof.
  induction d as [|[k0 v0] d IH]; simpl; [done|].
  case_decide as Hk.
  - intros [= ->]. subst. apply list_elem_of_here.
  - intros ?. apply list_elem_of_further. auto.
Qed.

Lemma dict_find_Some `{!EqDecision V} d v k :
  dict_find d v = Some k
  <-> exists pre post, d = pre ++ (k, v) :: post /\ v ∉ pre.*2.
Proof.
  split.
  - induction d as [|[k0 v0] d IH]; simpl; [done|].
    case_decide as Hv.
    + intros [= ->]. subst. exists [], d. split; [done|]. apply not_elem_of_nil.
    + intros (pre & post & -> & Hpre)%IH.
      exists ((k0, v0) :: pre), post. split; [done|].
      simpl. by apply not_elem_of_cons.
  - intros (pre & post & -> & Hpre).
    induction pre as [|[k0 v0] pre IH]; simpl.
    + by case_decide.
    + simpl in Hpre. apply not_elem_of_cons in Hpre as [? ?].
      case_decide; [congruence|auto].
Qed.

Lemma dict_find_None_iff `{!EqDecision V} d v :
  dict_find d v = None <-> v ∉ d.*2.
Proof.
  split; [|apply dict_find_None].
  induction d as [|[k0 v0] d IH]; simpl; [intros _; apply not_elem_of_nil|].
  case_decide; [done|]. intros ?. apply not_elem_of_cons. auto.
Qed.

End DictFacts2.

Lemma omap_sublist {A B : Type} (f g : A -> option B) (l : list A) :
  (forall x, f x = None \/ f x = g x) -> omap f l `sublist_of` omap g l.
Proof.
  intros Hfg. induction l as [|x l IH]; [constructor|]. csimpl.
  destruct (Hfg x) as [->| ->].
  - destruct (g x); [by apply sublist_cons|done].
  - destruct (g x); [by apply sublist_skip|done].
Qed.

Lemma omap_length_le {A B : Type} (f : A -> option B) (l : list A) :
  (length (omap f l) <= length l)%nat.
Proof. induction l as [|x l IH]; [done|]. csimpl. destruct (f x); simpl; lia. Qed.

Section RegistryFacts2.
Context {Function Pattern T : Type}.
Context `{!FunctionType Function, !ToolType Function Pattern T}.
Implicit Types (adds : list (string * Function * T)) (n : string).

Lemma spec_names_elem_of adds n :
  n ∈ spec_names adds <-> exists f tool, (n, f, tool) ∈ adds.
Proof.
  induction adds as [|[[n0 f0] t0] adds IH] using rev_ind.
  - split; [by intros ?%elem_of_nil|by intros (? & ? & ?%elem_of_nil)].
  - rewrite spec_names_snoc. simpl.
    assert (Hsnoc : (exists f tool, (n, f, tool) ∈ adds ++ [(n0, f0, t0)])
                    <-> n ∈ spec_names adds \/ n = n0).
    { rewrite IH. split.
      - intros (f & tool & [Hin|Hin%list_elem_of_singleton]%elem_of_app).
        + left. by exists f, tool.
        + right. congruence.
      - intros [(f & tool & ?)| ->].
        + exists f, tool. apply elem_of_app. by left.
        + exists f0, t0. apply elem_of_app. right. by apply list_elem_of_singleton. }
    rewrite Hsnoc. case_decide as Hin.
    + split; [by left|]. by intros [?| ->].
    + rewrite elem_of_app, list_elem_of_singleton. done.
Qed.

End RegistryFacts2.

(** X10: [add_tool] under one name leaves what is registered under every
    other name as it was, in both dictionaries. *)
Theorem add_tool_other_names {Function Pattern T : Type}
    `{!FunctionType Function, !ToolType Function Pattern T}
    (tm : ToolManager Function T) (n n' : string) (f : Function) (tool : T) :
  n <> n' ->
  get_tool (add_tool tm n f tool) n' = get_tool tm n' /\
  get_function (add_tool tm n f tool) n' = get_function tm n'.
Proof.
  intros Hn. unfold get_tool, get_function, add_tool. simpl.
  rewrite !dict_get_setitem. by case_decide.
Qed.

Lemma add_tool_other_names_witness :
  let tm := load [(weather_function, Weather)] in
  get_tool (add_tool tm "broken" broken_function Broken) "weather"
  = get_tool tm "weather" /\
  get_function (add_tool tm "broken" broken_function Broken) "weather"
  = get_function tm "weather".
Proof.
  intros tm. apply add_tool_other_names. vm_compute. discriminate.
Defined.

(** X11: registering a name again replaces what the name stood for and
    nothing else: two [add_tool] calls under one name leave the manager as
    the second alone would. *)
Theorem add_tool_last_write_wins {Function Pattern T : Type}
    `{!FunctionType Function, !ToolType Function Pattern T}
    (tm : ToolManager Function T) (n : string) (f1 f2 : Function)
    (tool1 tool2 : T) :
  add_tool (add_tool tm n f1 tool1) n f2 tool2 = add_tool tm n f2 tool2.
Proof. unfold add_tool. simpl. by rewrite !dict_setitem_setitem. Qed.

(** X12: [find_tool] and [find_function] return the name of the first item,
    in the order of the dictionary, whose value is the one looked for, and
    [None] exactly when no item has that value. *)
Theorem find_returns_first_match {Function Pattern T : Type}
    `{!FunctionType Function, !ToolType Function Pattern T}
    (tm : ToolManager Function T) (tool : T) (func : Function) :
  (forall n, find_tool tm tool = Some n
     <-> exists pre post,
           get_all_tool tm = pre ++ (n, tool) :: post /\ tool ∉ pre.*2) /\
  (find_tool tm tool = None <-> tool ∉ (get_all_tool tm).*2) /\
  (forall n, find_function tm func = Some n
     <-> exists pre post,
           get_all_function tm = pre ++ (n, func) :: post /\ func ∉ pre.*2) /\
  (find_function tm func = None <-> func ∉ (get_all_function tm).*2).
Proof.
  unfold find_tool, find_function, get_all_tool, get_all_function.
  split_and!.
  - intros n. apply dict_find_Some.
  - apply dict_find_None_iff.
  - intros n. apply dict_find_Some.
  - apply dict_find_None_iff.
Qed.

(** X13: on a manager built by its own methods, the reverse lookups agree
    with the lookups by name: the name found for a handler type or a
    descriptor leads back to it, and whatever is registered under some name
    is found. *)
Theorem find_agrees_with_get {Function Pattern T : Type}
    `{!FunctionType Function, !ToolType Function Pattern T}
    (calls : list tm_call) :
  let tm := tm_run calls in
  (forall tool n, find_tool tm tool = Some n -> get_tool tm n = Some tool) /\
  (forall tool n, get_tool tm n = Some tool -> is_Some (find_tool tm tool)) /\
  (forall func n, find_function tm func = Some n
                  -> get_function tm n = Some func) /\
  (forall func n, get_function tm n = Some func
                  -> is_Some (find_function tm func)).
Proof.
  intros tm. subst tm. rewrite tm_run_add_tools.
  destruct (add_tools_inv (tm_adds calls)) as (Ht & Hf & Hnd & _).
  unfold find_tool, find_function, get_tool, get_function.
  assert (Hfound : forall {V} `{!EqDecision V} (d : list (string * V)) v n,
            dict_get d n = Some v -> is_Some (dict_find d v)).
  { intros V ? d v n Hget%dict_get_Some_elem_of.
    destruct (dict_find d v) eqn:Hfind; [by eexists|].
    apply dict_find_None_iff in Hfind. destruct Hfind.
    apply list_elem_of_fmap. by exists (n, v). }
  split_and!.
  - intros tool n (pre & post & Hd & _)%dict_find_Some.
    apply dict_get_elem_of; [by rewrite Ht|].
    rewrite Hd. apply elem_of_app. right. apply list_elem_of_here.
  - intros tool n. apply Hfound.
  - intros func n (pre & post & Hd & _)%dict_find_Some.
    apply dict_get_elem_of; [by rewrite Hf|].
    rewrite Hd. apply elem_of_app. right. apply list_elem_of_here.
  - intros func n. apply Hfound.
Qed.

(** X14: [ignore] only takes away: a longer ignore list gives a sublist of
    what a shorter one gives, any ignore list gives a sublist of what no
    ignore list gives, and there is at most one descriptor per registered
    name. *)
Theorem run_all_check_ignore_monotone {Function Pattern T : Type}
    `{!FunctionType Function, !ToolType Function Pattern T}
    (tm : ToolManager Function T) (text : string) (ignore ignore' : list string) :
  (forall n, n ∈ ignore -> n ∈ ignore') ->
  run_all_check tm text (Some ignore')
    `sublist_of` run_all_check tm text (Some ignore) /\
  run_all_check tm text (Some ignore) `sublist_of` run_all_check tm text None /\
  (length (run_all_check tm text None) <= length (get_all_tool tm))%nat.
Proof.
  intros Hsub. unfold run_all_check. rewrite !run_all_check_loop_omap. simpl.
  split_and!.
  - apply omap_sublist. intros [n tool]. unfold run_all_check_item. simpl.
    destruct (func_message _ _ _); [|by left].
    destruct (decide (n ∈ ignore)) as [Hin|Hin].
    + left. by rewrite bool_decide_eq_true_2 by auto.
    + rewrite (bool_decide_eq_false_2 (n ∈ ignore)) by done.
      case_bool_decide; [by left|by right].
  - apply omap_sublist. intros [n tool]. unfold run_all_check_item. simpl.
    destruct (func_message _ _ _); [|by left].
    case_bool_decide; [by left|by right].
  - apply omap_length_le.
Qed.

Lemma run_all_check_ignore_monotone_witness :
  let tm := add_tools [("w"%string, weather_function, Weather);
                       ("f"%string, weather_function, Forecast)] in
  run_all_check tm "forecast of the weather" (Some ["w"; "f"]%string)
    `sublist_of` run_all_check tm "forecast of the weather" (Some ["w"%string]) /\
  run_all_check tm "forecast of the weather" (Some ["w"%string])
    `sublist_of` run_all_check tm "forecast of the weather" None /\
  (length (run_all_check tm "forecast of the weather" None)
   <= length (get_all_tool tm))%nat.
Proof.
  intros tm. apply run_all_check_ignore_monotone.
  intros n ->%list_elem_of_singleton. apply list_elem_of_here.
Defined.

(** X15: a candidate whose [pre_check()] is [True] is registered by
    [listener] under the name of its descriptor, replacing whatever had that
    name, and from then on [run_all_check] returns its descriptor for every
    text its [func_message] accepts, unless the name is ignored. *)
Theorem listener_registers_passing {Function Pattern T : Type}
    `{!FunctionType Function, !ToolType Function Pattern T}
    (calls : list tm_call) (function : Function) (func : T) :
  pre_check func (tool_init func) = CheckBool true ->
  let tm' := listener function func (tm_run calls) in
  get_tool tm' (name function) = Some func /\
  get_function tm' (name function) = Some function /\
  forall text ignore,
    is_Some (func_message func (tool_init func) text) ->
    name function ∉ default [] ignore ->
    Some function ∈ run_all_check tm' text ignore.
Proof.
  intros Hpre tm'. subst tm'. unfold listener. rewrite Hpre.
  change (add_tool (tm_run calls) (name function) function func)
    with (tm_step (tm_run calls) (CallAddTool (name function) function func)).
  replace (tm_step (tm_run calls) (CallAddTool (name function) function func))
    with (tm_run (calls ++ [CallAddTool (name function) function func]))
    by (unfold tm_run; by rewrite foldl_app).
  rewrite tm_run_add_tools. unfold tm_adds. rewrite omap_app. simpl.
  fold (tm_adds calls). set (adds := tm_adds calls).
  destruct (add_tools_inv (adds ++ [(name function, function, func)]))
    as (_ & _ & _ & Hget).
  destruct (Hget (name function)) as [-> ->].
  rewrite spec_entry_snoc, decide_True by done. split_and!; [done..|].
  intros text ignore Hmatch Hign. rewrite run_all_check_add_tools.
  apply list_elem_of_fmap_2, list_elem_of_omap. exists (name function). split.
  - apply spec_names_elem_of. exists function, func.
    apply elem_of_app. right. apply list_elem_of_here.
  - unfold spec_matches. rewrite spec_entry_snoc, decide_True by done.
    by rewrite bool_decide_eq_true_2.
Qed.

Lemma listener_registers_passing_witness :
  let tm' := listener weather_function Weather
               (tm_run [CallAddTool "weather" broken_function Broken]) in
  get_tool tm' (name weather_function) = Some Weather /\
  get_function tm' (name weather_function) = Some weather_function /\
  forall text ignore,
    is_Some (func_message Weather (tool_init Weather) text) ->
    name weather_function ∉ default [] ignore ->
    Some weather_function ∈ run_all_check tm' text ignore.
Proof.
  apply (listener_registers_passing
           [CallAddTool "weather" broken_function Broken]
           weather_function Weather).
  reflexivity.
Defined.

(** X16: after loading a program the two dictionaries hold, under each
    name, a handler type and a descriptor that were registered together:
    a candidate of the program whose [pre_check()] is [True] and whose
    descriptor has that name; a name is in both dictionaries or in
    neither. *)
Theorem load_keeps_pairs {Function Pattern T : Type}
    `{!FunctionType Function, !ToolType Function Pattern T}
    (candidates : list (Function * T)) (n : string) :
  match get_tool (load candidates) n, get_function (load candidates) n with
  | Some tool, Some f =>
      name f = n /\ (f, tool) ∈ candidates /\
      pre_check tool (tool_init tool) = CheckBool true
  | None, None => True
  | _, _ => False
  end.
Proof.
  rewrite load_add_tools.
  destruct (add_tools_inv (accepted candidates)) as (_ & _ & _ & Hget).
  destruct (Hget n) as [-> ->].
  destruct (spec_entry _ n) as [[f tool]|] eqn:He; simpl; [|done].
  apply spec_entry_elem_of, accepted_elem_of in He as (? & ? & ?). done.
Qed.

(** X17: the names of a manager are never repeated, the two dictionaries
    have as many items, and the names are those that [add_tool] was called
    with. *)
Theorem registry_names_unique {Function Pattern T : Type}
    `{!FunctionType Function, !ToolType Function Pattern T}
    (calls : list tm_call) :
  let tm := tm_run calls in
  NoDup (get_all_tool tm).*1 /\
  length (get_all_tool tm) = length (get_all_function tm) /\
  forall n, n ∈ (get_all_tool tm).*1
            <-> exists f tool, CallAddTool n f tool ∈ calls.
Proof.
  intros tm. subst tm. rewrite tm_run_add_tools. unfold get_all_tool, get_all_function.
  destruct (add_tools_inv (tm_adds calls)) as (Ht & Hf & Hnd & _).
  split_and!.
  - by rewrite Ht.
  - rewrite <- (length_fmap fst (tm_tool _)), Ht, <- Hf. by rewrite length_fmap.
  - intros n. rewrite Ht, spec_names_elem_of.
    split; intros (f & tool & Hin); exists f, tool.
    + apply list_elem_of_omap in Hin as (c & Hc & Hsome).
      destruct c; simplify_eq. done.
    + apply list_elem_of_omap. by exists (CallAddTool n f tool).
Qed.

(** X18: an empty keyword is found in every text: a tool that lists [""]
    among its keywords accepts every message, whatever its other keywords
    and its pattern are. *)
Theorem empty_keyword_matches_everything {Function Pattern : Type}
    `{!PatternType Pattern} (self : BaseTool Function Pattern)
    (message_text : string) :
  ""%string ∈ keywords self ->
  BaseTool_func_message self message_text = Some (function self).
Proof.
  intros Hin. unfold BaseTool_func_message.
  replace (keywords_loop (keywords self) message_text) with true; [done|].
  symmetry. apply keywords_loop_spec. exists ""%string. split; [done|].
  apply str_in_spec. by exists ""%string, message_text.
Qed.

Lemma empty_keyword_matches_everything_witness :
  BaseTool_func_message
    (mkBaseTool (Pattern := DemoPattern) false weather_function
       ["weather"; ""]%string None false) "hello"
  = Some weather_function.
Proof.
  apply (empty_keyword_matches_everything
           (mkBaseTool (Pattern := DemoPattern) false weather_function
              ["weather"; ""]%string None false) "hello").
  simpl. apply list_elem_of_further, list_elem_of_here.
Defined.

(** * The order of the queue, in full *)

(** Two lists in descending order of the key that hold, for each key, the
    same items in the same order are the same list. *)
Lemma stable_sorted_unique {A : Type} (key : A -> Z) (l1 l2 : list A) :
  StronglySorted (desc key) l1 -> StronglySorted (desc key) l2 ->
  (forall t, filter (fun y => key y = t) l1 = filter (fun y => key y = t) l2) ->
  l1 = l2.
Proof.
  assert (Hhead : forall x l y l',
            StronglySorted (desc key) (x :: l) ->
            (forall t, filter (fun z => key z = t) (x :: l)
                       = filter (fun z => key z = t) (y :: l')) ->
            key y <= key x).
  { intros x l y l' [Hx _]%StronglySorted_cons Hf.
    assert (Hy : y ∈ filter (fun z => key z = key y) (x :: l)).
    { rewrite Hf, filter_cons_True by done. apply list_elem_of_here. }
    apply list_elem_of_filter in Hy as [_ [->|Hy]%elem_of_cons]; [done|].
    rewrite Forall_forall in Hx. by apply Hx. }
  revert l2. induction l1 as [|x l1 IH]; intros l2 H1 H2 Hf.
  - destruct l2 as [|y l2]; [done|].
    specialize (Hf (key y)). by rewrite filter_cons_True in Hf.
  - destruct l2 as [|y l2].
    { specialize (Hf (key x)). by rewrite filter_cons_True in Hf. }
    assert (Hxy : key x = key y).
    { apply Z.le_antisymm; [|by eapply Hhead].
      eapply (Hhead y l2 x l1); [done|]. intros t. by rewrite Hf. }
    pose proof (Hf (key x)) as Hfx.
    rewrite !filter_cons_True in Hfx by done. injection Hfx as -> Hfx.
    f_equal. apply IH.
    + by apply StronglySorted_cons in H1 as [_ ?].
    + by apply StronglySorted_cons in H2 as [_ ?].
    + intros t. specialize (Hf t). rewrite !filter_cons in Hf.
      case_decide; [by injection Hf|done].
Qed.

(** X19: re-sorting on every insertion amounts to one sort of everything:
    from a reachable state, after any [add_task] calls, the list of a user
    is the stable descending sort of the chains that were waiting followed
    by those added, and [n] calls of [get_task] hand them out from its end,
    then [None]. *)
Theorem chain_queue_is_one_sort {Any : Type} (self : ChainReloader)
    (w : World Any) (u : string) (cs : list (Chain Any)) (n : nat) :
  reachable w ->
  let queue :=
    reverse (list_sort_reverse time
               (pending w u ++ filter (fun c => user_id c = u) cs)) in
  exists w',
    (add_tasks self cs;; get_tasks self u n) w
    = Ok ((Some <$> take n queue) ++ replicate (n - length queue) None, w').
Proof.
  intros Hw queue.
  destruct (add_tasks_run self cs w) as (w1 & Hadd & _ & Hall).
  destruct (Hall u) as (_ & Hsort & _ & Hstable).
  assert (Hq : pending w1 u = reverse queue).
  { unfold queue. rewrite reverse_involutive.
    apply (stable_sorted_unique time).
    - apply Hsort, reachable_sorted, Hw.
    - apply list_sort_reverse_sorted.
    - intros t. by rewrite Hstable, list_sort_reverse_stable. }
  destruct (get_tasks_run self u n w1 queue Hq) as (w2 & Hget & _).
  exists w2. unfold mbind, M_bind. by rewrite Hadd.
Qed.

Lemma chain_queue_is_one_sort_witness :
  let cs := [demo_chain "alice" 1 "first"; demo_chain "bob" 0 "other";
             demo_chain "alice" 1 "second"; demo_chain "alice" 4 "late"] in
  let queue :=
    reverse (list_sort_reverse time
               (pending (World_init (Any := Z)) "alice"
                ++ filter (fun c => user_id c = "alice"%string) cs)) in
  exists w',
    (add_tasks (mkChainReloader 0) cs;;
     get_tasks (mkChainReloader 0) "alice" 4) World_init
    = Ok ((Some <$> take 4 queue) ++ replicate (4 - length queue) None, w').
Proof.
  intros cs.
  apply (chain_queue_is_one_sort (mkChainReloader 0) World_init "alice" cs 4).
  apply reachable_init.
Defined.
